(** * FormattedContent: the markdown-like text formatter

    Shallow embedding of [src/components/FormattedContent.tsx]
    ([cleanContent], [FormattedContent] with its [flushList] closure and line
    loop, [formatInlineText]) together with the properties of the formatter
    that the specification states.

    Strings are JavaScript strings: sequences of UTF-16 code units.  The
    regular expressions of the source are written as data ([regex]) and run
    by a backtracking matcher that follows the ECMAScript order of
    alternatives (greedy quantifiers try the longest run first, lazy ones the
    shortest). *)

From Stdlib Require Import String Ascii NArith Bool Arith Lia List.
Import ListNotations.

(** ** JavaScript strings *)

Module JS.

(** A code unit of a JavaScript string. *)
Definition char := N.
Definition str := list char.

(** An ASCII literal as a JavaScript string. *)
Definition lit (s : string) : str :=
  map N_of_ascii (list_ascii_of_string s).

Definition LF : char := 10%N.
Definition star : char := 42%N.      (* '*' *)
Definition hash : char := 35%N.      (* '#' *)
Definition colon : char := 58%N.     (* ':' *)
Definition dash : char := 45%N.      (* '-' *)
Definition space : char := 32%N.     (* ' ' *)
Definition bullet : char := 8226%N.  (* U+2022 *)

(** ECMAScript [LineTerminator]: LF, CR, U+2028, U+2029. *)
Definition isLineTerminator (c : char) : bool :=
  (N.eqb c 10 || N.eqb c 13 || N.eqb c 8232 || N.eqb c 8233)%N.

(** ECMAScript [WhiteSpace] and [LineTerminator]: what [\s] matches and what
    [String.prototype.trim] removes. *)
Definition isSpace (c : char) : bool :=
  ((N.leb 9 c && N.leb c 13) || N.eqb c 32 || N.eqb c 160 || N.eqb c 5760
   || (N.leb 8192 c && N.leb c 8202) || N.eqb c 8232 || N.eqb c 8233
   || N.eqb c 8239 || N.eqb c 8287 || N.eqb c 12288 || N.eqb c 65279)%N.

Definition isDigit (c : char) : bool := (N.leb 48 c && N.leb c 57)%N.
Definition isStar (c : char) : bool := N.eqb c star.
Definition notStar (c : char) : bool := negb (isStar c).
Definition isHash (c : char) : bool := N.eqb c hash.
Definition isColon (c : char) : bool := N.eqb c colon.
(** [[-•]] *)
Definition isDashOrBullet (c : char) : bool := (N.eqb c dash || N.eqb c bullet)%N.
(** [[.)]] *)
Definition isDotOrParen (c : char) : bool := (N.eqb c 46 || N.eqb c 41)%N.
(** [.] without the [s] flag: any code unit but a line terminator. *)
Definition anyChar (c : char) : bool := negb (isLineTerminator c).

Fixpoint dropWhile (p : char -> bool) (s : str) : str :=
  match s with
  | [] => []
  | c :: s' => if p c then dropWhile p s' else s
  end.

(** [String.prototype.trim]. *)
Definition trim (s : str) : str :=
  rev (dropWhile isSpace (rev (dropWhile isSpace s))).

(** [s.slice(a, b)] for [0 <= a <= b]. *)
Definition slice (s : str) (a b : nat) : str := firstn (b - a) (skipn a s).

(** [s.split('\n')]: the pieces between line feeds; one piece for a string
    without line feed, the empty string included. *)
Fixpoint split_lines (s : str) : list str :=
  match s with
  | [] => [[]]
  | c :: s' =>
      if N.eqb c LF then [] :: split_lines s'
      else match split_lines s' with
           | l :: ls => (c :: l) :: ls
           | [] => [[c]]
           end
  end.

(** *** Regular expressions

    The fragment the source uses: a sequence of atoms, where a quantifier
    applies to one character class and a capturing group holds one
    quantified class (there is at most one group per expression). *)

Inductive atom :=
| Bol (multiline : bool)          (* ^, with or without the m flag *)
| Eol                             (* $, without the m flag *)
| Chr (p : char -> bool)          (* one code unit of the class *)
| Rep (p : char -> bool) (lo : nat) (hi : option nat) (greedy : bool)
                                  (* p{lo,hi}, or p{lo,hi}? when not greedy *)
| Grp (p : char -> bool) (lo : nat) (hi : option nat) (greedy : bool)
                                  (* ( p{lo,hi} ), capturing group 1 *)
| NotBehind (p : char -> bool)    (* (?<!p) *)
| NotAhead (p : char -> bool).    (* (?!p) *)

Definition regex := list atom.

(** The result of a match attempt at one position: the number of code units
    consumed and the text of group 1. *)
Definition found := (nat * option str)%type.

Definition shift (n : nat) (r : option found) : option found :=
  match r with
  | Some (k, c) => Some (n + k, c)
  | None => None
  end.

Definition capture (c : str) (r : option found) : option found :=
  match r with
  | Some (k, _) => Some (k, Some c)
  | None => None
  end.

(** Length of the longest prefix whose code units are all in the class. *)
Fixpoint spanLen (p : char -> bool) (s : str) : nat :=
  match s with
  | c :: s' => if p c then S (spanLen p s') else 0
  | [] => 0
  end.

(** The repetition counts a quantifier tries, in the order it tries them. *)
Definition counts (lo : nat) (hi : option nat) (greedy : bool) (avail : nat)
  : list nat :=
  let top := match hi with Some h => Nat.min h avail | None => avail end in
  let up := seq lo (S top - lo) in
  if greedy then rev up else up.

Fixpoint firstSome {A : Type} (f : nat -> option A) (ns : list nat) : option A :=
  match ns with
  | [] => None
  | n :: ns' => match f n with Some r => Some r | None => firstSome f ns' end
  end.

(** The code unit before the position reached after [n] more units. *)
Definition prevAfter (prev : option char) (s : str) (n : nat) : option char :=
  match n with
  | 0 => prev
  | S k => nth_error s k
  end.

Definition atBol (multiline : bool) (prev : option char) : bool :=
  match prev with
  | None => true
  | Some c => multiline && isLineTerminator c
  end.

(** [run r prev s]: match [r] at the position whose preceding code unit is
    [prev] ([None] at index 0) and where [s] remains. *)
Fixpoint run (r : regex) (prev : option char) (s : str) {struct r}
  : option found :=
  match r with
  | [] => Some (0, None)
  | a :: r' =>
      match a with
      | Bol m => if atBol m prev then run r' prev s else None
      | Eol => match s with [] => run r' prev s | _ :: _ => None end
      | Chr p =>
          match s with
          | c :: s' => if p c then shift 1 (run r' (Some c) s') else None
          | [] => None
          end
      | Rep p lo hi g =>
          firstSome
            (fun n => shift n (run r' (prevAfter prev s n) (skipn n s)))
            (counts lo hi g (spanLen p s))
      | Grp p lo hi g =>
          firstSome
            (fun n => capture (firstn n s)
                        (shift n (run r' (prevAfter prev s n) (skipn n s))))
            (counts lo hi g (spanLen p s))
      | NotBehind p =>
          match prev with
          | Some c => if p c then None else run r' prev s
          | None => run r' prev s
          end
      | NotAhead p =>
          match s with
          | c :: _ => if p c then None else run r' prev s
          | [] => run r' prev s
          end
      end
  end.

(** A match: index, length, group 1. *)
Record matched := Matched { m_index : nat; m_len : nat; m_group : option str }.

(** Leftmost match at or after the current position [idx]. *)
Fixpoint search (r : regex) (prev : option char) (s : str) (idx : nat)
  : option matched :=
  match run r prev s with
  | Some (n, c) => Some (Matched idx n c)
  | None =>
      match s with
      | [] => None
      | c :: s' => search r (Some c) s' (S idx)
      end
  end.

(** [re.exec(s)] of a global expression whose [lastIndex] is [lastIndex]. *)
Definition exec (r : regex) (s : str) (lastIndex : nat) : option matched :=
  if length s <? lastIndex then None
  else search r (prevAfter None s lastIndex) (skipn lastIndex s) lastIndex.

(** [s.match(re)] for an expression without the g flag. *)
Definition str_match (r : regex) (s : str) : option matched :=
  search r None s 0.

(** [m[1]]. *)
Definition group1 (m : matched) : str :=
  match m_group m with Some c => c | None => [] end.

(** [s.replace(re, by)] for an expression without the g flag: the leftmost
    match only. *)
Definition replace (r : regex) (by_ : str) (s : str) : str :=
  match str_match r s with
  | Some m => firstn (m_index m) s ++ by_ ++ skipn (m_index m + m_len m) s
  | None => s
  end.

(** [s.replace(re, by)] for an expression with the g flag: every match, left
    to right, the search resuming after each match ([skip] counts the code
    units of the current match still to pass over); after an empty match the
    search resumes one unit further. *)
Fixpoint replaceAllFrom (r : regex) (by_ : str) (prev : option char)
  (s : str) (skip : nat) : str :=
  match s with
  | [] =>
      match skip, run r prev [] with
      | 0, Some _ => by_
      | _, _ => []
      end
  | c :: s' =>
      match skip with
      | S k => replaceAllFrom r by_ (Some c) s' k
      | 0 =>
          match run r prev s with
          | Some (0, _) => by_ ++ c :: replaceAllFrom r by_ (Some c) s' 0
          | Some (S k, _) => by_ ++ replaceAllFrom r by_ (Some c) s' k
          | None => c :: replaceAllFrom r by_ (Some c) s' 0
          end
      end
  end.

Definition replaceAll (r : regex) (by_ : str) (s : str) : str :=
  replaceAllFrom r by_ None s 0.

End JS.

Import JS.

(** ** The content model

    What the component renders, in the terms of the specification:
    [<p>] is a [Paragraph]; the [<h3>] made from a [##] line is the level-2
    [Heading] and the [<h4>] made from a [###] line or from a bold header
    line the level-3 one; [<ul>] is a [BulletList] and [<ol>] a
    [NumberedList], one span sequence per [<li>]; a string child is a
    [PlainText] span and [<strong>] an [Emphasis] span. *)

Inductive InlineSpan :=
| PlainText (value : str)
| Emphasis (value : str).

Inductive ContentNode :=
| Paragraph (spans : list InlineSpan)
| Heading (level : nat) (spans : list InlineSpan)
| BulletList (items : list (list InlineSpan))
| NumberedList (items : list (list InlineSpan)).

(** What the component returns: [null], or the [<div>] of the elements. *)
Inductive Rendered :=
| Null
| Div (elements : list ContentNode).

(** The node sequence a result shows; [null] shows nothing. *)
Definition nodes (r : Rendered) : list ContentNode :=
  match r with
  | Null => []
  | Div elements => elements
  end.

Definition spanText (sp : InlineSpan) : str :=
  match sp with
  | PlainText v => v
  | Emphasis v => v
  end.

(** The text of a span sequence, the kind of each span forgotten. *)
Definition plainOf (spans : list InlineSpan) : str :=
  flat_map spanText spans.

(** ** The expressions of the source *)

Module Re.

Definition more := @None nat.

(** [/^\*\s+/gm] *)
Definition lineStar : regex := [Bol true; Chr isStar; Rep isSpace 1 more true].
(** [/\*{3,}/g] *)
Definition stars3 : regex := [Rep isStar 3 more true].
(** [/\*\s*\*\s*\*/g] *)
Definition spacedStars : regex :=
  [Chr isStar; Rep isSpace 0 more true; Chr isStar; Rep isSpace 0 more true;
   Chr isStar].
(** [/\s{3,}/g] *)
Definition spaces3 : regex := [Rep isSpace 3 more true].
(** [/\*+:/g] *)
Definition starsColon : regex := [Rep isStar 1 more true; Chr isColon].
(** [/:\*+/g] *)
Definition colonStars : regex := [Chr isColon; Rep isStar 1 more true].

(** [/^##\s+(.+)$/] *)
Definition h2 : regex :=
  [Bol false; Chr isHash; Chr isHash; Rep isSpace 1 more true;
   Grp anyChar 1 more true; Eol].
(** [/^###\s+(.+)$/] *)
Definition h3 : regex :=
  [Bol false; Chr isHash; Chr isHash; Chr isHash; Rep isSpace 1 more true;
   Grp anyChar 1 more true; Eol].
(** [/^\*\*([^*]+)\*\*:?\s*$/] *)
Definition boldHeader : regex :=
  [Bol false; Chr isStar; Chr isStar; Grp notStar 1 more true; Chr isStar;
   Chr isStar; Rep isColon 0 (Some 1) true; Rep isSpace 0 more true; Eol].
(** [/\*+/g] *)
Definition stars : regex := [Rep isStar 1 more true].
(** [/^[-•]\s+(.+)$/] *)
Definition bulletLine : regex :=
  [Bol false; Chr isDashOrBullet; Rep isSpace 1 more true;
   Grp anyChar 1 more true; Eol].
(** [/^\*\s+(.+)$/] *)
Definition asteriskBullet : regex :=
  [Bol false; Chr isStar; Rep isSpace 1 more true; Grp anyChar 1 more true;
   Eol].
(** [/^\*+\s*/] *)
Definition leadingStars : regex :=
  [Bol false; Rep isStar 1 more true; Rep isSpace 0 more true].
(** [/\*+$/] *)
Definition trailingStars : regex := [Rep isStar 1 more true; Eol].
(** [/^\d+[.)]\s+(.+)$/] *)
Definition numbered : regex :=
  [Bol false; Rep isDigit 1 more true; Chr isDotOrParen;
   Rep isSpace 1 more true; Grp anyChar 1 more true; Eol].
(** [/\s*\*+$/] *)
Definition spacedTrailingStars : regex :=
  [Rep isSpace 0 more true; Rep isStar 1 more true; Eol].

(** [/\*\*\*+/g] *)
Definition tripleStars : regex := [Chr isStar; Chr isStar; Rep isStar 1 more true].
(** A [*] with no [*] before it and none after it: negative lookbehind on
    [\*], then [\*], then negative lookahead on [\*], with the g flag. *)
Definition loneStar : regex := [NotBehind isStar; Chr isStar; NotAhead isStar].
(** [/\*\*(.+?)\*\*/g] *)
Definition boldRegex : regex :=
  [Chr isStar; Chr isStar; Grp anyChar 1 more false; Chr isStar; Chr isStar].

End Re.

(** ** cleanContent *)

Definition cleanContent (text : str) : str :=
  let cleaned :=
    replaceAll Re.colonStars [colon]
      (replaceAll Re.starsColon [colon]
         (replaceAll Re.spaces3 [space; space]
            (replaceAll Re.spacedStars []
               (replaceAll Re.stars3 []
                  (replaceAll Re.lineStar [bullet; space] text))))) in
  cleaned.

(** ** formatInlineText

    The [while ((match = boldRegex.exec(cleanedText)) !== null)] loop runs on
    fuel; [None] is a loop that has not ended when the fuel has. *)

Fixpoint boldLoop (fuel : nat) (cleanedText : str) (lastIndex : nat)
  (parts : list InlineSpan) : option (list InlineSpan * nat) :=
  match fuel with
  | 0 => None
  | S fuel' =>
      match exec Re.boldRegex cleanedText lastIndex with
      | None => Some (parts, lastIndex)
      | Some m =>
          let parts1 :=
            if lastIndex <? m_index m
            then parts ++ [PlainText (slice cleanedText lastIndex (m_index m))]
            else parts in
          let parts2 := parts1 ++ [Emphasis (group1 m)] in
          boldLoop fuel' cleanedText (m_index m + m_len m) parts2
      end
  end.

Definition formatInlineText (text : str) : option (list InlineSpan) :=
  let cleanedText :=
    replaceAll Re.loneStar [] (replaceAll Re.tripleStars [star; star] text) in
  match boldLoop (S (length cleanedText)) cleanedText 0 [] with
  | None => None
  | Some (parts, lastIndex) =>
      let parts' :=
        if lastIndex <? length cleanedText
        then parts ++ [PlainText (skipn lastIndex cleanedText)]
        else parts in
      Some (match parts' with
            | [] => [PlainText cleanedText]
            | _ :: _ => parts'
            end)
  end.

(** ** FormattedContent *)

Inductive ListType := bulletT | numberedT.

(** The variables the line loop and [flushList] share. *)
Record State := mkState {
  elements : list ContentNode;
  listItems : list str;          (* the [text] of each item *)
  isInList : bool;
  listType : ListType
}.

Definition initial : State := mkState [] [] false bulletT.

Definition bind {A B : Type} (x : option A) (f : A -> option B) : option B :=
  match x with
  | Some a => f a
  | None => None
  end.

Notation "x <- e ;; k" := (bind e (fun x => k))
  (at level 61, e at next level, right associativity).

Fixpoint mapM {A B : Type} (f : A -> option B) (l : list A) : option (list B) :=
  match l with
  | [] => Some []
  | a :: l' => b <- f a;; bs <- mapM f l';; Some (b :: bs)
  end.

Definition push (st : State) (e : ContentNode) : State :=
  mkState (elements st ++ [e]) (listItems st) (isInList st) (listType st).

Definition flushList (st : State) : option State :=
  match listItems st with
  | [] => Some st
  | _ :: _ =>
      items <- mapM formatInlineText (listItems st);;
      Some (mkState
              (elements st ++
                 [match listType st with
                  | numberedT => NumberedList items
                  | bulletT => BulletList items
                  end])
              [] false (listType st))
  end.

(** [if (!isInList) { flushList(); isInList = true; listType = t; }] *)
Definition openList (t : ListType) (st : State) : option State :=
  if negb (isInList st)
  then st1 <- flushList st;;
       Some (mkState (elements st1) (listItems st1) true t)
  else Some st.

Definition addItem (st : State) (text : str) : State :=
  mkState (elements st) (listItems st ++ [text]) (isInList st) (listType st).

Definition isEmpty (s : str) : bool :=
  match s with [] => true | _ :: _ => false end.

Definition orElse {A : Type} (x y : option A) : option A :=
  match x with Some _ => x | None => y end.

(** [const matchedBullet = bulletMatch || asteriskBulletMatch]. *)
Definition matchedBullet (trimmedLine : str) : option matched :=
  let bulletMatch := str_match Re.bulletLine trimmedLine in
  let asteriskBulletMatch := str_match Re.asteriskBullet trimmedLine in
  orElse bulletMatch asteriskBulletMatch.

(** [const bulletText = matchedBullet[1].replace(/^\*+\s*/, '').replace(/\*+$/, '')],
    as a function of [matchedBullet[1]]. *)
Definition bulletText (captured : str) : str :=
  replace Re.trailingStars [] (replace Re.leadingStars [] captured).

(** [const cleanedLine = trimmedLine.replace(/^\*+\s*/, '').replace(/\s*\*+$/, '')]. *)
Definition cleanedLine (trimmedLine : str) : str :=
  replace Re.spacedTrailingStars [] (replace Re.leadingStars [] trimmedLine).

(** The body of [lines.forEach((line, index) => ...)]; keys and class names
    are left out. *)
Definition processLine (st : State) (line : str) : option State :=
  let trimmedLine := trim line in
  if isEmpty trimmedLine then flushList st
  else
    let h2Match := str_match Re.h2 trimmedLine in
    let h3Match := str_match Re.h3 trimmedLine in
    let boldHeaderMatch := str_match Re.boldHeader trimmedLine in
    match h2Match with
    | Some m =>
        st1 <- flushList st;;
        spans <- formatInlineText (group1 m);;
        Some (push st1 (Heading 2 spans))
    | None =>
    match h3Match with
    | Some m =>
        st1 <- flushList st;;
        spans <- formatInlineText (group1 m);;
        Some (push st1 (Heading 3 spans))
    | None =>
    match boldHeaderMatch with
    | Some m =>
        st1 <- flushList st;;
        Some (push st1 (Heading 3 [PlainText (replaceAll Re.stars [] (group1 m))]))
    | None =>
    match matchedBullet trimmedLine with
    | Some m =>
        st1 <- openList bulletT st;;
        Some (addItem st1 (bulletText (group1 m)))
    | None =>
    let numberedMatch := str_match Re.numbered trimmedLine in
    match numberedMatch with
    | Some m =>
        st1 <- openList numberedT st;;
        Some (addItem st1 (group1 m))
    | None =>
        st1 <- flushList st;;
        if isEmpty (cleanedLine trimmedLine) then Some st1
        else
          spans <- formatInlineText (cleanedLine trimmedLine);;
          Some (push st1 (Paragraph spans))
    end end end end end.

(** [lines.forEach]. *)
Fixpoint forEach (st : State) (lines : list str) : option State :=
  match lines with
  | [] => Some st
  | line :: lines' => st1 <- processLine st line;; forEach st1 lines'
  end.

(** The component, as a function of its [content] property: [None] if a loop
    does not end, [Some Null] for [return null], [Some (Div elements)]
    otherwise. *)
Definition format (content : str) : option Rendered :=
  if isEmpty content then Some Null
  else
    let cleanedContent := cleanContent content in
    let lines := split_lines cleanedContent in
    st <- forEach initial lines;;
    st' <- flushList st;;
    Some (Div (elements st')).

(** Lines joined by line feeds. *)
Fixpoint unlines (ls : list str) : str :=
  match ls with
  | [] => []
  | [l] => l
  | l :: ls' => l ++ LF :: unlines ls'
  end.

(** ** Line classification

    The order in which the loop body tests a trimmed line. *)

Inductive Kind := KBlank | KH2 | KH3 | KBoldHeader | KBullet | KNumbered | KPlain.

Definition matches (r : regex) (s : str) : bool :=
  match str_match r s with Some _ => true | None => false end.

Definition classify (trimmedLine : str) : Kind :=
  if isEmpty trimmedLine then KBlank
  else if matches Re.h2 trimmedLine then KH2
  else if matches Re.h3 trimmedLine then KH3
  else if matches Re.boldHeader trimmedLine then KBoldHeader
  else if matches Re.bulletLine trimmedLine
          || matches Re.asteriskBullet trimmedLine then KBullet
  else if matches Re.numbered trimmedLine then KNumbered
  else KPlain.

(** ** Notions used in the statements *)

(** [r] matches at no position of [s]. *)
Definition NoMatch (r : regex) (s : str) : Prop :=
  forall prev n, run r prev (skipn n s) = None.

(** No [*] in the string. *)
Definition starless (s : str) : bool := forallb notStar s.

(** No line feed in the string. *)
Definition oneLine (s : str) : bool := forallb (fun c => negb (N.eqb c LF)) s.

(** The fourth step of [cleanContent]. *)
Definition collapse (s : str) : str := replaceAll Re.spaces3 [space; space] s.

(** No run of three whitespace units anywhere. *)
Fixpoint noRun3 (s : str) : Prop :=
  match s with
  | [] => True
  | _ :: s' => spanLen isSpace s <= 2 /\ noRun3 s'
  end.

(** The text the loop body stores for a bullet line. *)
Definition bulletItem (line : str) : str :=
  match matchedBullet (trim line) with
  | Some m => bulletText (group1 m)
  | None => []
  end.

(** The text the loop body stores for a numbered line. *)
Definition numberedItem (line : str) : str :=
  match str_match Re.numbered (trim line) with
  | Some m => group1 m
  | None => []
  end.

(** A line that the loop body takes for a bullet line. *)
Definition isBulletLine (line : str) : Prop := classify (trim line) = KBullet.





(** The two replacements of [bulletText], in the words of the specification. *)

(** The text without its leading run of [*] and the whitespace after that
    run; a text that starts with no [*] is left as it is. *)
Definition stripLeadingRun (s : str) : str :=
  if 1 <=? spanLen isStar s then dropWhile isSpace (dropWhile isStar s) else s.

(** The text without its trailing run of [*]. *)
Definition stripTrailingRun (s : str) : str :=
  rev (dropWhile isStar (rev s)).

(** The prefix that [replace] keeps when it removes the leftmost match of
    [/\*+$/]. *)
Fixpoint beforeTrailingStars (s : str) : str :=
  match s with
  | [] => []
  | c :: s' => if forallb isStar s then [] else c :: beforeTrailingStars s'
  end.

(** ** Further notions

    Measures and views of texts, spans and nodes that the further properties
    are stated with. *)

(** The least number of code units a match of the expression spans. *)
Fixpoint minLen (r : regex) : nat :=
  match r with
  | [] => 0
  | Chr _ :: r' => S (minLen r')
  | Rep _ lo _ _ :: r' => lo + minLen r'
  | Grp _ lo _ _ :: r' => lo + minLen r'
  | _ :: r' => minLen r'
  end.

(** The number of line feeds of a text. *)
Fixpoint countLF (s : str) : nat :=
  match s with
  | [] => 0
  | c :: s' => if N.eqb c LF then S (countLF s') else countLF s'
  end.

(** The text starts with a unit of the class. *)
Definition headIs (q : char -> bool) (s : str) : bool :=
  match s with
  | [] => false
  | c :: _ => q c
  end.

(** Somewhere in the text a unit of the first class is directly followed by
    one of the second. *)
Fixpoint hasPair (p q : char -> bool) (s : str) : bool :=
  match s with
  | [] => false
  | a :: s' => (p a && headIs q s') || hasPair p q s'
  end.

(** The text starts with a run of [*] and a colon after it: where
    [/\*+:/] matches. *)
Definition matchStarsColon (s : str) : bool :=
  (1 <=? spanLen isStar s) && headIs isColon (dropWhile isStar s).

(** [cleanedText] of [formatInlineText]: the text after its two
    replacements. *)
Definition cleanedTextOf (text : str) : str :=
  replaceAll Re.loneStar [] (replaceAll Re.tripleStars [star; star] text).

(** No three [*] in a row. *)
Fixpoint noTriple (s : str) : Prop :=
  match s with
  | [] => True
  | _ :: s' => spanLen isStar s <= 2 /\ noTriple s'
  end.

(** No [*] stands alone: each has a [*] before it ([before] tells whether
    the text is preceded by one) or after it. *)
Fixpoint noLone (before : bool) (s : str) : Prop :=
  match s with
  | [] => True
  | c :: s' =>
      (isStar c = true -> before = true \/ headIs isStar s' = true) /\
      noLone (isStar c) s'
  end.

(** The text starts with two [*]. *)
Definition twoStars (s : str) : bool :=
  match s with
  | a :: b :: _ => isStar a && isStar b
  | _ => false
  end.

(** The second replacement of [formatInlineText], unit by unit: a [*] with
    no [*] before it ([before]) and none after it is left out. *)
Fixpoint dropLone (before : bool) (s : str) : str :=
  match s with
  | [] => []
  | c :: s' =>
      if isStar c && negb before && negb (headIs isStar s')
      then dropLone (isStar c) s'
      else c :: dropLone (isStar c) s'
  end.

(** An emphasis span without a marker in its text. *)
Definition emphOK (sp : InlineSpan) : Prop :=
  match sp with
  | Emphasis v => starless v = true
  | PlainText _ => True
  end.

(** A span written back as text: an emphasis span between double markers. *)
Definition markup (sp : InlineSpan) : str :=
  match sp with
  | PlainText v => v
  | Emphasis v => [star; star] ++ v ++ [star; star]
  end.

Definition sourceOf (spans : list InlineSpan) : str := flat_map markup spans.

(** A span that holds text; an emphasis span moreover stays on one line. *)
Definition spanOK (sp : InlineSpan) : Prop :=
  match sp with
  | PlainText v => v <> []
  | Emphasis v => v <> [] /\ forallb anyChar v = true
  end.

(** An emphasis span as the component may show it: some text, no marker in
    it, on one line. *)
Definition emphasisOK (sp : InlineSpan) : Prop :=
  match sp with
  | Emphasis v => v <> [] /\ starless v = true /\ forallb anyChar v = true
  | PlainText _ => True
  end.

(** The span sequences of a node: that of a paragraph or heading, those of
    the items of a list. *)
Definition spansOf (n : ContentNode) : list (list InlineSpan) :=
  match n with
  | Paragraph spans => [spans]
  | Heading _ spans => [spans]
  | BulletList items => items
  | NumberedList items => items
  end.

Definition nodeSpansOK (n : ContentNode) : Prop :=
  Forall (Forall emphasisOK) (spansOf n).

(** A list node holds an item. *)
Definition nodeOK (n : ContentNode) : Prop :=
  match n with
  | BulletList items => items <> []
  | NumberedList items => items <> []
  | _ => True
  end.

(** The open list has items exactly when [isInList] is set. *)
Definition consistent (st : State) : Prop :=
  isInList st = true <-> listItems st <> [].

(** [st] is [st0] with the elements [els] emitted before; the list type is
    compared only while a list is open. *)
Definition framed (els : list ContentNode) (st st0 : State) : Prop :=
  elements st = els ++ elements st0 /\
  listItems st = listItems st0 /\
  isInList st = isInList st0 /\
  (isInList st0 = true -> listType st = listType st0).

Definition pushAll (st : State) (ns : list ContentNode) : State :=
  mkState (elements st ++ ns) (listItems st) (isInList st) (listType st).

(** A line that the loop body takes for a list line, bullet or numbered. *)
Definition isListLine (line : str) : bool :=
  match classify (trim line) with
  | KBullet => true
  | KNumbered => true
  | _ => false
  end.

(** The nodes the loop body emits for a line that is no list line, after
    it has flushed the open list. *)
Definition lineNodes (line : str) : option (list ContentNode) :=
  let t := trim line in
  match classify t with
  | KH2 =>
      spans <- formatInlineText
                 (match str_match Re.h2 t with Some m => group1 m | None => [] end);;
      Some [Heading 2 spans]
  | KH3 =>
      spans <- formatInlineText
                 (match str_match Re.h3 t with Some m => group1 m | None => [] end);;
      Some [Heading 3 spans]
  | KBoldHeader =>
      Some [Heading 3
              [PlainText
                 (replaceAll Re.stars []
                    (match str_match Re.boldHeader t with
                     | Some m => group1 m
                     | None => []
                     end))]]
  | KPlain =>
      if isEmpty (cleanedLine t) then Some []
      else spans <- formatInlineText (cleanedLine t);; Some [Paragraph spans]
  | _ => Some []
  end.

(** The item text and the list type of a list line. *)
Definition listItem (line : str) : str :=
  match classify (trim line) with
  | KBullet => bulletItem line
  | _ => numberedItem line
  end.

Definition listTypeOf (line : str) : ListType :=
  match classify (trim line) with
  | KBullet => bulletT
  | _ => numberedT
  end.

(** The node [flushList] makes of the items of a list of the given type. *)
Definition listNode (t : ListType) (items : list (list InlineSpan)) : ContentNode :=
  match t with
  | numberedT => NumberedList items
  | bulletT => BulletList items
  end.

(** The line loop and the final flush, on the lines of the cleaned content. *)
Definition renderLines (lines : list str) : option (list ContentNode) :=
  st <- forEach initial lines;;
  st' <- flushList st;;
  Some (elements st').

(** ** MarketPrices: the crop selection

    The component of the same source file that shows its results through
    [FormattedContent].  Its selection step keeps two state variables,
    [selectedCrops] and [customCrop]; the handlers are functions from the
    state of the current render to the state of the next one and the toast
    they raise. *)

Module MarketPrices.

(** [toast.error('Maximum 5 crops can be selected')]. *)
Inductive Toast := MaximumCrops.

Record State := mkState {
  selectedCrops : list str;
  customCrop : str
}.

(** [useState<string[]>([])] and [useState('')]. *)
Definition initial : State := mkState [] [].

(** [a === b] on strings. *)
Fixpoint strEq (a b : str) : bool :=
  match a, b with
  | [], [] => true
  | x :: a', y :: b' => N.eqb x y && strEq a' b'
  | _, _ => false
  end.

(** [crops.includes(crop)]. *)
Definition includes (crops : list str) (crop : str) : bool :=
  existsb (fun c => strEq c crop) crops.

Definition toggleCrop (st : State) (crop : str) : State * option Toast :=
  if includes (selectedCrops st) crop then
    (mkState (filter (fun c => negb (strEq c crop)) (selectedCrops st))
       (customCrop st), None)
  else if length (selectedCrops st) <? 5 then
    (mkState (selectedCrops st ++ [crop]) (customCrop st), None)
  else (st, Some MaximumCrops).

Definition addCustomCrop (st : State) : State * option Toast :=
  if negb (isEmpty (trim (customCrop st)))
     && negb (includes (selectedCrops st) (trim (customCrop st))) then
    if length (selectedCrops st) <? 5 then
      (mkState (selectedCrops st ++ [trim (customCrop st)]) [], None)
    else (st, Some MaximumCrops)
  else (st, None).

(** What the user does in the selection step: click a crop, type into the
    field ([setCustomCrop(e.target.value)]), add the typed crop, start
    over ([resetAndStartOver], which leaves [customCrop] as it is). *)
Inductive Event :=
| ToggleCrop (crop : str)
| SetCustomCrop (value : str)
| AddCustomCrop
| ResetAndStartOver.

Definition step (st : State) (e : Event) : State :=
  match e with
  | ToggleCrop crop => fst (toggleCrop st crop)
  | SetCustomCrop value => mkState (selectedCrops st) value
  | AddCustomCrop => fst (addCustomCrop st)
  | ResetAndStartOver => mkState [] (customCrop st)
  end.

Definition run (events : list Event) : State := fold_left step events initial.

End MarketPrices.

(** * Properties *)

(** ** The matcher *)

Section Matcher.

Lemma firstSome_some {A : Type} (f : nat -> option A) ns x :
  firstSome f ns = Some x -> exists n, In n ns /\ f n = Some x.
Proof.
  induction ns as [|n ns IH]; simpl; [discriminate|].
  destruct (f n) eqn:E.
  - intros [= <-]. exists n. auto.
  - intros H. destruct (IH H) as (k & Hk & Hf). exists k. auto.
Qed.

Lemma firstSome_none {A : Type} (f : nat -> option A) ns :
  (forall n, In n ns -> f n = None) -> firstSome f ns = None.
Proof.
  induction ns as [|n ns IH]; simpl; intros H; [reflexivity|].
  rewrite (H n) by auto. apply IH. intros k Hk. apply H. auto.
Qed.

Lemma firstSome_head {A : Type} (f : nat -> option A) n ns x :
  f n = Some x -> firstSome f (n :: ns) = Some x.
Proof. intros H. simpl. now rewrite H. Qed.

Lemma spanLen_le p s : spanLen p s <= length s.
Proof.
  induction s as [|c s IH]; simpl; [lia|]. destruct (p c); simpl; lia.
Qed.

Lemma counts_in lo hi g avail n :
  In n (counts lo hi g avail) -> lo <= n <= avail.
Proof.
  unfold counts. intros H.
  assert (Hs : In n (seq lo (S (match hi with
                                  | Some h => Nat.min h avail
                                  | None => avail
                                  end) - lo))).
  { destruct g; [apply in_rev|]; exact H. }
  apply in_seq in Hs. destruct hi; lia.
Qed.

Lemma counts_nil lo hi g avail : avail < lo -> counts lo hi g avail = [].
Proof.
  intros H. unfold counts.
  replace (S (match hi with
              | Some h => Nat.min h avail
              | None => avail
              end) - lo) with 0 by (destruct hi; lia).
  now destruct g.
Qed.

(** The greedy unbounded quantifier tries the whole run first. *)
Lemma counts_greedy lo avail :
  lo <= avail ->
  counts lo None true avail = avail :: rev (seq lo (avail - lo)).
Proof.
  intros H. unfold counts.
  replace (S avail - lo) with (S (avail - lo)) by lia.
  rewrite seq_S, rev_app_distr. simpl. f_equal. lia.
Qed.

Lemma shift_some n r k c : shift n r = Some (k, c) ->
  exists k', r = Some (k', c) /\ k = n + k'.
Proof.
  destruct r as [[k' c']|]; simpl; [|discriminate].
  intros [= <- <-]. eauto.
Qed.

Lemma capture_some g r k c : capture g r = Some (k, c) ->
  exists c', r = Some (k, c') /\ c = Some g.
Proof.
  destruct r as [[k' c']|]; simpl; [|discriminate].
  intros [= <- <-]. eauto.
Qed.

(** The equations of [run], one per atom. *)
Lemma run_Bol m r prev s :
  run (Bol m :: r) prev s = if atBol m prev then run r prev s else None.
Proof. reflexivity. Qed.

Lemma run_Eol r prev s :
  run (Eol :: r) prev s = match s with [] => run r prev s | _ :: _ => None end.
Proof. reflexivity. Qed.

Lemma run_Chr p r prev s :
  run (Chr p :: r) prev s =
  match s with
  | c :: s' => if p c then shift 1 (run r (Some c) s') else None
  | [] => None
  end.
Proof. reflexivity. Qed.

Lemma run_Rep p lo hi g r prev s :
  run (Rep p lo hi g :: r) prev s =
  firstSome (fun n => shift n (run r (prevAfter prev s n) (skipn n s)))
    (counts lo hi g (spanLen p s)).
Proof. reflexivity. Qed.

Lemma run_Grp p lo hi g r prev s :
  run (Grp p lo hi g :: r) prev s =
  firstSome
    (fun n => capture (firstn n s)
                (shift n (run r (prevAfter prev s n) (skipn n s))))
    (counts lo hi g (spanLen p s)).
Proof. reflexivity. Qed.

Lemma run_NotBehind p r prev s :
  run (NotBehind p :: r) prev s =
  match prev with
  | Some c => if p c then None else run r prev s
  | None => run r prev s
  end.
Proof. reflexivity. Qed.

(** A match never reads past the end of the string. *)
Lemma run_le r : forall prev s n c, run r prev s = Some (n, c) -> n <= length s.
Proof.
  induction r as [|a r IH]; intros prev s n c; simpl.
  - intros [= <- _]. lia.
  - destruct a as [m| |p|p lo hi g|p lo hi g|p|p].
    + destruct (atBol m prev); [apply IH|discriminate].
    + destruct s; [apply IH|discriminate].
    + destruct s as [|x s]; [discriminate|].
      destruct (p x); [|discriminate].
      intros H. apply shift_some in H as (k & H1 & ->).
      apply IH in H1. simpl. lia.
    + intros H. apply firstSome_some in H as (k & Hk & H1).
      apply counts_in in Hk. pose proof (spanLen_le p s).
      apply shift_some in H1 as (k' & H2 & ->).
      apply IH in H2. rewrite length_skipn in H2. lia.
    + intros H. apply firstSome_some in H as (k & Hk & H1).
      apply counts_in in Hk. pose proof (spanLen_le p s).
      apply capture_some in H1 as (c' & H2 & _).
      apply shift_some in H2 as (k' & H3 & ->).
      apply IH in H3. rewrite length_skipn in H3. lia.
    + destruct prev as [x|]; [destruct (p x); [discriminate|]|]; apply IH.
    + destruct s as [|x s]; [|destruct (p x); [discriminate|]]; apply IH.
Qed.

Lemma search_bounds r : forall s prev idx m,
  search r prev s idx = Some m ->
  idx <= m_index m /\ m_index m + m_len m <= idx + length s.
Proof.
  induction s as [|x s IH]; intros prev idx m; simpl.
  - destruct (run r prev []) as [[n c]|] eqn:E; [|discriminate].
    intros [= <-]. apply run_le in E. simpl in *. lia.
  - destruct (run r prev (x :: s)) as [[n c]|] eqn:E.
    + intros [= <-]. apply run_le in E. simpl in *. lia.
    + intros H. apply IH in H. lia.
Qed.

(** What a match found by [search] is: a match of [run] at its index. *)
Lemma search_run r : forall s prev idx m,
  search r prev s idx = Some m ->
  exists prev', run r prev' (skipn (m_index m - idx) s) = Some (m_len m, m_group m).
Proof.
  induction s as [|x s IH]; intros prev idx m; simpl.
  - destruct (run r prev []) as [[n c]|] eqn:E; [|discriminate].
    intros [= <-]. simpl. rewrite Nat.sub_diag. simpl. eauto.
  - destruct (run r prev (x :: s)) as [[n c]|] eqn:E.
    + intros [= <-]. simpl. rewrite Nat.sub_diag. simpl. eauto.
    + intros H. pose proof (search_bounds _ _ _ _ _ H) as [Hb _].
      apply IH in H as (prev' & H1). exists prev'.
      replace (m_index m - idx) with (S (m_index m - S idx)) by lia.
      exact H1.
Qed.

Lemma exec_bounds r s i m :
  exec r s i = Some m -> i <= m_index m /\ m_index m + m_len m <= length s.
Proof.
  unfold exec. destruct (Nat.ltb_spec (length s) i) as [Hlt|Hge]; [discriminate|].
  intros Hs. apply search_bounds in Hs. rewrite length_skipn in Hs. lia.
Qed.

End Matcher.

(** ** Termination of the loops *)

Section Totality.

Lemma run_chr_pos p r prev s n c :
  run (Chr p :: r) prev s = Some (n, c) -> 1 <= n.
Proof.
  simpl. destruct s as [|x s]; [discriminate|].
  destruct (p x); [|discriminate].
  intros H. apply shift_some in H as (k & _ & ->). lia.
Qed.

(** Each [boldRegex.exec] that finds a match moves [lastIndex] forward. *)
Lemma exec_bold_progress s i m :
  exec Re.boldRegex s i = Some m ->
  i < m_index m + m_len m <= length s.
Proof.
  intros H. pose proof (exec_bounds _ _ _ _ H) as [Hi Hl].
  unfold exec in H. destruct (length s <? i); [discriminate|].
  apply search_run in H as (prev' & H).
  apply run_chr_pos in H. lia.
Qed.

(** The loop ends within [length cleanedText - lastIndex + 1] tests. *)
Lemma boldLoop_total : forall fuel s i parts,
  i <= length s -> length s - i < fuel ->
  exists res, boldLoop fuel s i parts = Some res.
Proof.
  induction fuel as [|fuel IH]; intros s i parts Hi Hf; [lia|].
  simpl. destruct (exec Re.boldRegex s i) as [m|] eqn:E; [|eauto].
  apply exec_bold_progress in E. apply IH; lia.
Qed.

Lemma formatInlineText_total text :
  exists spans, formatInlineText text = Some spans.
Proof.
  unfold formatInlineText.
  set (cleanedText := replaceAll Re.loneStar [] _).
  destruct (boldLoop_total (S (length cleanedText)) cleanedText 0 [])
    as ([parts li] & ->); [lia|lia|]. eauto.
Qed.

Lemma mapM_total {A B : Type} (f : A -> option B) l :
  (forall a, exists b, f a = Some b) ->
  exists bs, mapM f l = Some bs /\ length bs = length l.
Proof.
  intros Hf. induction l as [|a l (bs & IH & Hl)]; simpl; [eauto|].
  destruct (Hf a) as (b & ->). rewrite IH. simpl.
  exists (b :: bs). simpl. auto.
Qed.

Lemma flushList_total st : exists st', flushList st = Some st'.
Proof.
  unfold flushList. destruct (listItems st) as [|x l] eqn:E; [eauto|].
  destruct (mapM_total formatInlineText (x :: l) formatInlineText_total)
    as (items & -> & _).
  simpl. eauto.
Qed.

Lemma openList_total t st : exists st', openList t st = Some st'.
Proof.
  unfold openList. destruct (negb (isInList st)); [|eauto].
  destruct (flushList_total st) as (st1 & ->). simpl. eauto.
Qed.

Lemma processLine_total st line : exists st', processLine st line = Some st'.
Proof.
  unfold processLine.
  destruct (isEmpty (trim line)); [apply flushList_total|].
  destruct (flushList_total st) as (st1 & Hf).
  destruct (str_match Re.h2 (trim line)) as [m|].
  { rewrite Hf. simpl.
    destruct (formatInlineText_total (group1 m)) as (spans & ->). simpl. eauto. }
  destruct (str_match Re.h3 (trim line)) as [m|].
  { rewrite Hf. simpl.
    destruct (formatInlineText_total (group1 m)) as (spans & ->). simpl. eauto. }
  destruct (str_match Re.boldHeader (trim line)) as [m|].
  { rewrite Hf. simpl. eauto. }
  destruct (matchedBullet (trim line)) as [m|].
  { destruct (openList_total bulletT st) as (st2 & ->). simpl. eauto. }
  destruct (str_match Re.numbered (trim line)) as [m|].
  { destruct (openList_total numberedT st) as (st2 & ->). simpl. eauto. }
  rewrite Hf. simpl.
  destruct (isEmpty _); [eauto|].
  destruct (formatInlineText_total (cleanedLine (trim line))) as (spans & ->).
  simpl. eauto.
Qed.

Lemma forEach_total : forall lines st, exists st', forEach st lines = Some st'.
Proof.
  induction lines as [|l lines IH]; intros st; simpl; [eauto|].
  destruct (processLine_total st l) as (st1 & ->). simpl. apply IH.
Qed.

End Totality.

(** ** Expressions that find nothing *)

Section NoMatch.

Lemma NoMatch_tail r c s : NoMatch r (c :: s) -> NoMatch r s.
Proof. intros H prev n. exact (H prev (S n)). Qed.

Lemma NoMatch_here {r s} prev : NoMatch r s -> run r prev s = None.
Proof. intros H. exact (H prev 0). Qed.

Lemma search_NoMatch r : forall s prev idx,
  NoMatch r s -> search r prev s idx = None.
Proof.
  induction s as [|c s IH]; intros prev idx H; simpl.
  - now rewrite (NoMatch_here prev H).
  - rewrite (NoMatch_here prev H). apply IH. eapply NoMatch_tail; eauto.
Qed.

Lemma str_match_NoMatch r s : NoMatch r s -> str_match r s = None.
Proof. apply search_NoMatch. Qed.

Lemma replace_NoMatch {r} by_ {s} : NoMatch r s -> replace r by_ s = s.
Proof. intros H. unfold replace. now rewrite str_match_NoMatch. Qed.

Lemma replaceAllFrom_NoMatch r by_ : forall s prev,
  NoMatch r s -> replaceAllFrom r by_ prev s 0 = s.
Proof.
  induction s as [|c s IH]; intros prev H; simpl.
  - now rewrite (NoMatch_here prev H).
  - rewrite (NoMatch_here prev H). f_equal. apply IH. eapply NoMatch_tail; eauto.
Qed.

Lemma replaceAll_NoMatch {r} by_ {s} : NoMatch r s -> replaceAll r by_ s = s.
Proof. apply replaceAllFrom_NoMatch. Qed.

Lemma exec_NoMatch {r s} i : NoMatch r s -> exec r s i = None.
Proof.
  intros H. unfold exec. destruct (length s <? i); [reflexivity|].
  apply search_NoMatch. intros prev n. rewrite skipn_skipn. apply H.
Qed.

Lemma starless_skipn s : forall n, starless s = true -> starless (skipn n s) = true.
Proof.
  induction s as [|c s IH]; intros [|n]; simpl; auto.
  intros H. apply andb_prop in H as [_ H]. now apply IH.
Qed.

Lemma starless_span s : starless s = true -> spanLen isStar s = 0.
Proof.
  destruct s as [|c s]; simpl; [reflexivity|].
  unfold notStar. destruct (isStar c); [discriminate|reflexivity].
Qed.

Lemma starless_head c s : starless (c :: s) = true -> isStar c = false.
Proof.
  simpl. unfold notStar. destruct (isStar c); [discriminate|reflexivity].
Qed.

(** An expression that starts with one [*] or more fails where no [*] is. *)
Lemma run_stars_first lo hi g r prev s :
  1 <= lo -> starless s = true -> run (Rep isStar lo hi g :: r) prev s = None.
Proof.
  intros Hlo H. simpl. rewrite (starless_span _ H).
  rewrite counts_nil by lia. reflexivity.
Qed.

Lemma run_star_first r prev s :
  starless s = true -> run (Chr isStar :: r) prev s = None.
Proof.
  intros H. simpl. destruct s as [|c s]; [reflexivity|].
  now rewrite (starless_head _ _ H).
Qed.

Lemma NoMatch_lineStar s : starless s = true -> NoMatch Re.lineStar s.
Proof.
  intros H prev n. apply (starless_skipn _ n) in H.
  unfold Re.lineStar. rewrite run_Bol. destruct (atBol true prev); [|reflexivity].
  now apply run_star_first.
Qed.

Lemma NoMatch_stars3 s : starless s = true -> NoMatch Re.stars3 s.
Proof.
  intros H prev n. apply (starless_skipn _ n) in H.
  apply run_stars_first; [lia|assumption].
Qed.

Lemma NoMatch_spacedStars s : starless s = true -> NoMatch Re.spacedStars s.
Proof.
  intros H prev n. apply (starless_skipn _ n) in H. now apply run_star_first.
Qed.

Lemma NoMatch_starsColon s : starless s = true -> NoMatch Re.starsColon s.
Proof.
  intros H prev n. apply (starless_skipn _ n) in H.
  apply run_stars_first; [lia|assumption].
Qed.

Lemma NoMatch_colonStars s : starless s = true -> NoMatch Re.colonStars s.
Proof.
  intros H prev n. apply (starless_skipn _ n) in H.
  unfold Re.colonStars. rewrite run_Chr.
  destruct (skipn n s) as [|c t]; [reflexivity|].
  destruct (isColon c); [|reflexivity].
  simpl in H. apply andb_prop in H as [_ H].
  rewrite run_stars_first; [reflexivity|lia|assumption].
Qed.

Lemma NoMatch_tripleStars s : starless s = true -> NoMatch Re.tripleStars s.
Proof.
  intros H prev n. apply (starless_skipn _ n) in H. now apply run_star_first.
Qed.

Lemma NoMatch_loneStar s : starless s = true -> NoMatch Re.loneStar s.
Proof.
  intros H prev n. apply (starless_skipn _ n) in H.
  unfold Re.loneStar. rewrite run_NotBehind.
  destruct prev as [x|]; [destruct (isStar x); [reflexivity|]|];
    now apply run_star_first.
Qed.

Lemma NoMatch_boldRegex s : starless s = true -> NoMatch Re.boldRegex s.
Proof.
  intros H prev n. apply (starless_skipn _ n) in H. now apply run_star_first.
Qed.

Lemma NoMatch_leadingStars s : starless s = true -> NoMatch Re.leadingStars s.
Proof.
  intros H prev n. apply (starless_skipn _ n) in H.
  unfold Re.leadingStars. rewrite run_Bol.
  destruct (atBol false prev); [|reflexivity].
  apply run_stars_first; [lia|assumption].
Qed.

Lemma NoMatch_spacedTrailingStars s :
  starless s = true -> NoMatch Re.spacedTrailingStars s.
Proof.
  intros H prev n. apply (starless_skipn _ n) in H.
  unfold Re.spacedTrailingStars. rewrite run_Rep.
  apply firstSome_none. intros k _.
  rewrite run_stars_first; [reflexivity|lia|].
  now apply starless_skipn.
Qed.

End NoMatch.

(** ** Whitespace: trimming and the collapse of long runs *)

Section Whitespace.

Lemma dropWhile_suffix p : forall s, exists a, s = a ++ dropWhile p s.
Proof.
  induction s as [|c s (a & IH)]; simpl; [now exists []|].
  destruct (p c); [|now exists []].
  exists (c :: a). simpl. now f_equal.
Qed.

Lemma dropWhile_head p : forall s x t, dropWhile p s = x :: t -> p x = false.
Proof.
  induction s as [|c s IH]; intros x t; simpl; [discriminate|].
  destruct (p c) eqn:E; [apply IH|]. now intros [= <- _].
Qed.

Lemma dropWhile_twice p s : dropWhile p (dropWhile p s) = dropWhile p s.
Proof.
  destruct (dropWhile p s) as [|x t] eqn:E; [reflexivity|].
  apply dropWhile_head in E. simpl. now rewrite E.
Qed.

(** Trimming keeps a middle piece of the string. *)
Lemma trim_infix s : exists a w, s = a ++ trim s ++ w.
Proof.
  unfold trim. destruct (dropWhile_suffix isSpace s) as (a & Ha).
  destruct (dropWhile_suffix isSpace (rev (dropWhile isSpace s))) as (w & Hw).
  exists a, (rev w). rewrite <- rev_app_distr, <- Hw, rev_involutive. exact Ha.
Qed.

Lemma trim_trim s : trim (trim s) = trim s.
Proof.
  unfold trim at 1.
  assert (H : dropWhile isSpace (trim s) = trim s).
  { destruct (trim s) as [|x t] eqn:E; [reflexivity|].
    unfold trim in E.
    destruct (dropWhile_suffix isSpace (rev (dropWhile isSpace s))) as (w & Hw).
    apply (f_equal (@rev char)) in Hw.
    rewrite rev_involutive, rev_app_distr, E in Hw. simpl in Hw.
    apply dropWhile_head in Hw. simpl. now rewrite Hw. }
  rewrite H. unfold trim. rewrite rev_involutive, dropWhile_twice. reflexivity.
Qed.

Lemma forallb_trim q s : forallb q s = true -> forallb q (trim s) = true.
Proof.
  destruct (trim_infix s) as (a & w & H). intros Hq. rewrite H in Hq.
  rewrite !forallb_app in Hq.
  apply andb_prop in Hq as [_ Hq]. now apply andb_prop in Hq as [Hq _].
Qed.

Lemma split_lines_oneLine : forall s, oneLine s = true -> split_lines s = [s].
Proof.
  induction s as [|c s IH]; simpl; [reflexivity|].
  intros H. apply andb_prop in H as [Hc H].
  destruct (N.eqb c LF); [discriminate|]. now rewrite IH.
Qed.

Lemma forallb_replaceAllFrom q r by_ :
  forallb q by_ = true ->
  forall s prev k, forallb q s = true ->
                   forallb q (replaceAllFrom r by_ prev s k) = true.
Proof.
  intros Hby. induction s as [|c s IH]; intros prev k H; simpl.
  - destruct k; [|reflexivity]. now destruct (run r prev []).
  - simpl in H. apply andb_prop in H as [Hc H].
    destruct k as [|k]; [|now apply IH].
    destruct (run r prev (c :: s)) as [[[|n] g]|].
    + rewrite forallb_app, Hby. simpl. rewrite Hc. now apply IH.
    + rewrite forallb_app, Hby. simpl. now apply IH.
    + simpl. rewrite Hc. now apply IH.
Qed.

Lemma forallb_replaceAll q r by_ s :
  forallb q by_ = true -> forallb q s = true ->
  forallb q (replaceAll r by_ s) = true.
Proof. intros. now apply forallb_replaceAllFrom. Qed.

(** Passing over the rest of a match. *)
Lemma replaceAllFrom_skip r by_ : forall s prev k,
  k <= length s ->
  replaceAllFrom r by_ prev s k =
  replaceAllFrom r by_ (prevAfter prev s k) (skipn k s) 0.
Proof.
  induction s as [|c s IH]; intros prev [|k] Hk; simpl in *; try reflexivity.
  - lia.
  - rewrite IH by lia. now destruct k.
Qed.

(** [/\s{3,}/] matches a whole run of three or more whitespace units. *)
Lemma run_spaces3 prev s :
  run Re.spaces3 prev s =
  if 3 <=? spanLen isSpace s then Some (spanLen isSpace s, None) else None.
Proof.
  unfold Re.spaces3. rewrite run_Rep.
  destruct (Nat.leb_spec 3 (spanLen isSpace s)) as [H|H].
  - rewrite counts_greedy by assumption. simpl. now rewrite Nat.add_0_r.
  - rewrite counts_nil by assumption. reflexivity.
Qed.

Lemma noRun3_skipn : forall s n, noRun3 s -> spanLen isSpace (skipn n s) <= 2.
Proof.
  induction s as [|c s IH]; intros [|n] H; simpl skipn.
  - simpl. lia.
  - simpl. lia.
  - apply H.
  - apply IH, H.
Qed.

Lemma noRun3_NoMatch s : noRun3 s -> NoMatch Re.spaces3 s.
Proof.
  intros H prev n. rewrite run_spaces3.
  pose proof (noRun3_skipn s n H).
  destruct (Nat.leb_spec 3 (spanLen isSpace (skipn n s))); [lia|reflexivity].
Qed.

Lemma collapse_noRun3_id s : noRun3 s -> collapse s = s.
Proof. intros H. now apply (replaceAll_NoMatch _ (noRun3_NoMatch _ H)). Qed.

Lemma spanLen_app_le p : forall a b, spanLen p a <= spanLen p (a ++ b).
Proof.
  induction a as [|c a IH]; intros b; simpl; [lia|].
  destruct (p c); [specialize (IH b)|]; lia.
Qed.

Lemma noRun3_app_l : forall a b, noRun3 (a ++ b) -> noRun3 a.
Proof.
  induction a as [|c a IH]; intros b; [easy|].
  intros [H1 H2]. split; [|eapply IH; eauto].
  pose proof (spanLen_app_le isSpace (c :: a) b). simpl app in *. lia.
Qed.

Lemma noRun3_app_r : forall a b, noRun3 (a ++ b) -> noRun3 b.
Proof.
  induction a as [|c a IH]; intros b; [easy|]. intros [_ H]. now apply IH.
Qed.

Lemma noRun3_trim s : noRun3 s -> noRun3 (trim s).
Proof.
  destruct (trim_infix s) as (a & w & H). intros Hn. rewrite H in Hn.
  apply noRun3_app_r in Hn. now apply noRun3_app_l in Hn.
Qed.

Lemma spanLen_skipn p : forall s, spanLen p (skipn (spanLen p s) s) = 0.
Proof.
  induction s as [|c s IH]; simpl; [reflexivity|].
  destruct (p c) eqn:E; simpl; [exact IH|now rewrite E].
Qed.

Lemma replaceAllFrom_spaces3_prev by_ : forall s prev prev' k,
  replaceAllFrom Re.spaces3 by_ prev s k = replaceAllFrom Re.spaces3 by_ prev' s k.
Proof.
  induction s as [|c s IH]; intros prev prev' k; cbn [replaceAllFrom].
  - now rewrite !run_spaces3.
  - destruct k as [|k]; [|reflexivity].
    rewrite (run_spaces3 prev), (run_spaces3 prev'). reflexivity.
Qed.

(** One step of the collapse: a long run at the front becomes two spaces,
    anything else is copied. *)
Lemma collapse_step c s :
  collapse (c :: s) =
  if 3 <=? spanLen isSpace (c :: s)
  then space :: space :: collapse (skipn (spanLen isSpace (c :: s)) (c :: s))
  else c :: collapse s.
Proof.
  unfold collapse, replaceAll. cbn [replaceAllFrom]. rewrite run_spaces3.
  destruct (Nat.leb_spec 3 (spanLen isSpace (c :: s))) as [H|H].
  - destruct (spanLen isSpace (c :: s)) as [|k] eqn:E; [lia|].
    pose proof (spanLen_le isSpace (c :: s)) as Hle. rewrite E in Hle.
    simpl in Hle. rewrite replaceAllFrom_skip by lia. simpl.
    now rewrite (replaceAllFrom_spaces3_prev _ _ _ None).
  - f_equal. apply replaceAllFrom_spaces3_prev.
Qed.

Lemma collapse_nil : collapse [] = [].
Proof. reflexivity. Qed.

Lemma collapse_spec : forall n s, length s <= n ->
  noRun3 (collapse s) /\
  (spanLen isSpace s <= 2 -> spanLen isSpace (collapse s) = spanLen isSpace s).
Proof.
  induction n as [|n IH]; intros [|c s] Hl; simpl in Hl; try lia;
    try (rewrite collapse_nil; simpl; auto).
  rewrite collapse_step.
  destruct (Nat.leb_spec 3 (spanLen isSpace (c :: s))) as [H|H].
  - set (rest := skipn (spanLen isSpace (c :: s)) (c :: s)).
    assert (Hr : length rest <= n).
    { unfold rest. rewrite length_skipn. simpl length. lia. }
    destruct (IH rest Hr) as [Hn Hs].
    assert (H0 : spanLen isSpace rest = 0) by apply spanLen_skipn.
    rewrite H0 in Hs. specialize (Hs ltac:(lia)).
    split; [|lia].
    assert (E : forall x, spanLen isSpace (space :: x) = S (spanLen isSpace x))
      by reflexivity.
    cbn [noRun3]. rewrite !E, Hs. repeat split; auto.
  - destruct (IH s ltac:(lia)) as [Hn Hs].
    assert (Hc : spanLen isSpace (c :: collapse s) = spanLen isSpace (c :: s)).
    { simpl in *. destruct (isSpace c); [|reflexivity]. rewrite Hs; lia. }
    split; [|intros _; exact Hc].
    split; [lia|exact Hn].
Qed.

Lemma collapse_noRun3 s : noRun3 (collapse s).
Proof. exact (proj1 (collapse_spec (length s) s (le_n _))). Qed.

End Whitespace.

(** ** Text without emphasis markers *)

Section PlainText.

Lemma starless_collapse s : starless s = true -> starless (collapse s) = true.
Proof. intros H. now apply forallb_replaceAll. Qed.

Lemma oneLine_collapse s : oneLine s = true -> oneLine (collapse s) = true.
Proof. intros H. now apply forallb_replaceAll. Qed.

(** Only the whitespace step of [cleanContent] can change such a text. *)
Lemma cleanContent_starless s : starless s = true -> cleanContent s = collapse s.
Proof.
  intros H. unfold cleanContent.
  rewrite (replaceAll_NoMatch _ (NoMatch_lineStar _ H)).
  rewrite (replaceAll_NoMatch _ (NoMatch_stars3 _ H)).
  rewrite (replaceAll_NoMatch _ (NoMatch_spacedStars _ H)).
  fold (collapse s). pose proof (starless_collapse _ H) as Hc.
  rewrite (replaceAll_NoMatch _ (NoMatch_starsColon _ Hc)).
  now rewrite (replaceAll_NoMatch _ (NoMatch_colonStars _ Hc)).
Qed.

(** Such a text is one plain span. *)
Lemma formatInlineText_starless t :
  starless t = true -> formatInlineText t = Some [PlainText t].
Proof.
  intros H. unfold formatInlineText.
  rewrite (replaceAll_NoMatch _ (NoMatch_tripleStars _ H)).
  rewrite (replaceAll_NoMatch _ (NoMatch_loneStar _ H)).
  cbn [boldLoop]. rewrite (exec_NoMatch _ (NoMatch_boldRegex _ H)).
  destruct t; reflexivity.
Qed.

Lemma matches_false r s : matches r s = false -> str_match r s = None.
Proof. unfold matches. now destruct (str_match r s). Qed.

(** What the loop body finds on a line that [classify] calls plain. *)
Lemma classify_plain t :
  classify t = KPlain ->
  isEmpty t = false /\ str_match Re.h2 t = None /\ str_match Re.h3 t = None /\
  str_match Re.boldHeader t = None /\ str_match Re.bulletLine t = None /\
  str_match Re.asteriskBullet t = None /\ str_match Re.numbered t = None.
Proof.
  unfold classify.
  destruct (isEmpty t); [discriminate|].
  destruct (matches Re.h2 t) eqn:E1; [discriminate|].
  destruct (matches Re.h3 t) eqn:E2; [discriminate|].
  destruct (matches Re.boldHeader t) eqn:E3; [discriminate|].
  destruct (matches Re.bulletLine t) eqn:E4; [discriminate|].
  destruct (matches Re.asteriskBullet t) eqn:E5; [discriminate|].
  destruct (matches Re.numbered t) eqn:E6; [discriminate|].
  intros _. repeat split; now apply matches_false.
Qed.

(** The paragraph case of the loop body. *)
Lemma processLine_plain st line :
  classify (trim line) = KPlain ->
  processLine st line =
  (st1 <- flushList st;;
   if isEmpty (cleanedLine (trim line)) then Some st1
   else spans <- formatInlineText (cleanedLine (trim line));;
        Some (push st1 (Paragraph spans))).
Proof.
  intros H. apply classify_plain in H as (H0 & H1 & H2 & H3 & H4 & H5 & H6).
  unfold processLine, matchedBullet. now rewrite H0, H1, H2, H3, H4, H5, H6.
Qed.

(** One plain line without emphasis markers becomes one paragraph of one
    plain span: the line, its long whitespace runs collapsed, trimmed. *)
Lemma format_plain_line s :
  starless s = true -> oneLine s = true ->
  classify (trim (cleanContent s)) = KPlain ->
  format s = Some (Div [Paragraph [PlainText (trim (cleanContent s))]]).
Proof.
  intros Hs Hl Hk.
  assert (Hne : isEmpty s = false) by (destruct s; [discriminate Hk|reflexivity]).
  unfold format. rewrite Hne.
  rewrite (cleanContent_starless _ Hs) in *.
  rewrite (split_lines_oneLine _ (oneLine_collapse _ Hl)). cbn [forEach].
  rewrite (processLine_plain _ _ Hk). cbn [flushList initial listItems bind].
  assert (Ht : starless (trim (collapse s)) = true)
    by now apply forallb_trim, starless_collapse.
  unfold cleanedLine.
  rewrite (replace_NoMatch _ (NoMatch_leadingStars _ Ht)).
  rewrite (replace_NoMatch _ (NoMatch_spacedTrailingStars _ Ht)).
  apply classify_plain in Hk as (-> & _).
  rewrite (formatInlineText_starless _ Ht). reflexivity.
Qed.

(** Cleaning and trimming again changes nothing. *)
Lemma clean_trim_stable s :
  starless s = true ->
  trim (cleanContent (trim (cleanContent s))) = trim (cleanContent s).
Proof.
  intros Hs. rewrite (cleanContent_starless _ Hs).
  assert (Ht : starless (trim (collapse s)) = true)
    by now apply forallb_trim, starless_collapse.
  rewrite (cleanContent_starless _ Ht).
  rewrite collapse_noRun3_id by apply noRun3_trim, collapse_noRun3.
  apply trim_trim.
Qed.

End PlainText.

(** ** Lists *)

Section Lists.

Lemma classify_bullet t :
  classify t = KBullet ->
  isEmpty t = false /\ str_match Re.h2 t = None /\ str_match Re.h3 t = None /\
  str_match Re.boldHeader t = None /\ exists m, matchedBullet t = Some m.
Proof.
  unfold classify, matchedBullet, matches.
  destruct (isEmpty t); [discriminate|].
  destruct (str_match Re.h2 t); [discriminate|].
  destruct (str_match Re.h3 t); [discriminate|].
  destruct (str_match Re.boldHeader t); [discriminate|].
  destruct (str_match Re.bulletLine t) as [m|]; [simpl; intros _; eauto 10|].
  destruct (str_match Re.asteriskBullet t) as [m|]; [simpl; intros _; eauto 10|].
  simpl. destruct (str_match Re.numbered t); discriminate.
Qed.

Lemma classify_numbered t :
  classify t = KNumbered ->
  isEmpty t = false /\ str_match Re.h2 t = None /\ str_match Re.h3 t = None /\
  str_match Re.boldHeader t = None /\ matchedBullet t = None /\
  exists m, str_match Re.numbered t = Some m.
Proof.
  unfold classify, matchedBullet, matches.
  destruct (isEmpty t); [discriminate|].
  destruct (str_match Re.h2 t); [discriminate|].
  destruct (str_match Re.h3 t); [discriminate|].
  destruct (str_match Re.boldHeader t); [discriminate|].
  destruct (str_match Re.bulletLine t) as [m|]; [discriminate|].
  destruct (str_match Re.asteriskBullet t) as [m|]; [discriminate|].
  simpl. destruct (str_match Re.numbered t); [eauto 10|discriminate].
Qed.

(** The bullet case of the loop body. *)
Lemma processLine_bullet st line :
  classify (trim line) = KBullet ->
  processLine st line =
  (st1 <- openList bulletT st;; Some (addItem st1 (bulletItem line))).
Proof.
  intros H. apply classify_bullet in H as (H0 & H1 & H2 & H3 & m & Hm).
  unfold processLine, bulletItem. now rewrite H0, H1, H2, H3, Hm.
Qed.

(** The numbered case of the loop body. *)
Lemma processLine_numbered st line :
  classify (trim line) = KNumbered ->
  processLine st line =
  (st1 <- openList numberedT st;; Some (addItem st1 (numberedItem line))).
Proof.
  intros H. apply classify_numbered in H as (H0 & H1 & H2 & H3 & H4 & m & Hm).
  unfold processLine, numberedItem. now rewrite H0, H1, H2, H3, H4, Hm.
Qed.

(** The blank case of the loop body. *)
Lemma processLine_blank st line :
  trim line = [] -> processLine st line = flushList st.
Proof. intros H. unfold processLine. now rewrite H. Qed.

Lemma forEach_app : forall a b st,
  forEach st (a ++ b) = (st1 <- forEach st a;; forEach st1 b).
Proof.
  induction a as [|l a IH]; intros b st; simpl; [reflexivity|].
  destruct (processLine st l) as [st1|]; simpl; [apply IH|reflexivity].
Qed.

(** Bullet lines met inside a list are added to it. *)
Lemma forEach_bullets_inside : forall bs els items t,
  Forall isBulletLine bs ->
  forEach (mkState els items true t) bs =
  Some (mkState els (items ++ map bulletItem bs) true t).
Proof.
  induction bs as [|b bs IH]; intros els items t H; simpl.
  - now rewrite app_nil_r.
  - inversion H as [|? ? Hb Hbs]; subst.
    rewrite (processLine_bullet _ _ Hb). simpl.
    unfold addItem. simpl. rewrite IH by assumption.
    now rewrite <- app_assoc.
Qed.

(** Bullet lines met outside a list open a bullet list. *)
Lemma forEach_bullets : forall bs els t,
  Forall isBulletLine bs -> bs <> [] ->
  forEach (mkState els [] false t) bs =
  Some (mkState els (map bulletItem bs) true bulletT).
Proof.
  intros [|b bs] els t H Hne; [congruence|]. simpl.
  inversion H as [|? ? Hb Hbs]; subst.
  rewrite (processLine_bullet _ _ Hb). simpl.
  unfold addItem. simpl. now rewrite forEach_bullets_inside.
Qed.

(** Flushing a bullet list that holds items. *)
Lemma flushList_bullets els texts :
  texts <> [] ->
  exists items,
    mapM formatInlineText texts = Some items /\
    flushList (mkState els texts true bulletT) =
    Some (mkState (els ++ [BulletList items]) [] false bulletT).
Proof.
  intros Hne.
  destruct (mapM_total formatInlineText texts formatInlineText_total)
    as (items & Hi & _).
  exists items. split; [assumption|].
  unfold flushList. simpl. destruct texts; [congruence|]. now rewrite Hi.
Qed.

End Lists.

(** ** Marker runs at the ends of a text *)

Section MarkerRuns.

Lemma skipn_spanLen p : forall s, skipn (spanLen p s) s = dropWhile p s.
Proof.
  induction s as [|c s IH]; simpl; [reflexivity|].
  destruct (p c); [exact IH|reflexivity].
Qed.

(** [/^\*+\s*/] at index 0: the run of [*], then the run of whitespace. *)
Lemma run_leadingStars s :
  run Re.leadingStars None s =
  if 1 <=? spanLen isStar s
  then Some (spanLen isStar s + spanLen isSpace (dropWhile isStar s), None)
  else None.
Proof.
  unfold Re.leadingStars. rewrite run_Bol. cbn [atBol]. rewrite run_Rep.
  destruct (Nat.leb_spec 1 (spanLen isStar s)) as [H|H].
  - rewrite counts_greedy by assumption. apply firstSome_head.
    rewrite skipn_spanLen. rewrite run_Rep. rewrite counts_greedy by lia.

    cbn [firstSome run shift]. now rewrite Nat.add_0_r.
  - now rewrite counts_nil.
Qed.

Lemma search_Bol_later r : forall s c idx,
  search (Bol false :: r) (Some c) s idx = None.
Proof.
  induction s as [|x s IH]; intros c idx; cbn [search]; rewrite run_Bol;
    cbn [atBol andb]; [reflexivity|apply IH].
Qed.

Lemma replace_leadingStars s : replace Re.leadingStars [] s = stripLeadingRun s.
Proof.
  unfold replace, str_match, stripLeadingRun.
  destruct s as [|c s]; [reflexivity|].
  cbn [search]. rewrite run_leadingStars.
  destruct (1 <=? spanLen isStar (c :: s)).
  - cbn [m_index m_len firstn app]. rewrite Nat.add_0_l, Nat.add_comm.
    now rewrite <- skipn_skipn, !skipn_spanLen.
  - unfold Re.leadingStars. now rewrite search_Bol_later.
Qed.

Lemma spanLen_all p : forall s, spanLen p s = length s <-> forallb p s = true.
Proof.
  induction s as [|c s IH]; simpl; [easy|].
  destruct (p c); simpl.
  - rewrite <- IH. split; [now intros [= ->]|now intros ->].
  - split; discriminate.
Qed.

(** [/\*+$/] at one position: everything that remains, if it is [*] only. *)
Lemma run_trailingStars prev s :
  run Re.trailingStars prev s =
  if (1 <=? length s) && forallb isStar s then Some (length s, None) else None.
Proof.
  unfold Re.trailingStars. rewrite run_Rep.
  destruct (Nat.leb_spec 1 (spanLen isStar s)) as [H|H].
  - pose proof (spanLen_le isStar s) as Hle.
    replace (1 <=? length s) with true by (symmetry; apply Nat.leb_le; lia).
    cbn [andb]. destruct (forallb isStar s) eqn:E.
    + apply spanLen_all in E. rewrite E in *.
      rewrite counts_greedy by assumption. apply firstSome_head.
      rewrite skipn_all. cbn [run shift]. now rewrite Nat.add_0_r.
    + apply firstSome_none. intros n Hn. apply counts_in in Hn.
      rewrite run_Eol. destruct (skipn n s) eqn:Es; [|reflexivity].
      assert (Hl : length (skipn n s) = 0) by now rewrite Es.
      rewrite length_skipn in Hl.
      assert (Ha : spanLen isStar s = length s) by lia.
      apply spanLen_all in Ha. congruence.
  - rewrite counts_nil by assumption.
    destruct s as [|c s]; [reflexivity|]. simpl in *.
    destruct (isStar c); [lia|reflexivity].
Qed.

Lemma search_trailingStars : forall s prev pre,
  match search Re.trailingStars prev s (length pre) with
  | Some m => firstn (m_index m) (pre ++ s) ++ skipn (m_index m + m_len m) (pre ++ s)
  | None => pre ++ s
  end = pre ++ beforeTrailingStars s.
Proof.
  induction s as [|c s IH]; intros prev pre; cbn [search].
  - rewrite run_trailingStars. reflexivity.
  - rewrite run_trailingStars. cbn [length Nat.leb andb beforeTrailingStars].
    destruct (forallb isStar (c :: s)).
    + cbn [m_index m_len].
      rewrite firstn_app, firstn_all, Nat.sub_diag, firstn_0.
      rewrite skipn_all2 by (rewrite length_app; cbn [length]; lia).
      now rewrite !app_nil_r.
    + specialize (IH (Some c) (pre ++ [c])).
      rewrite length_app in IH. cbn [length] in IH.
      replace (length pre + 1) with (S (length pre)) in IH by lia.
      rewrite <- !app_assoc in IH. exact IH.
Qed.

Lemma replace_trailingStars_before s :
  replace Re.trailingStars [] s = beforeTrailingStars s.
Proof.
  unfold replace, str_match. exact (search_trailingStars s None []).
Qed.

Lemma dropWhile_all p : forall l, forallb p l = true -> dropWhile p l = [].
Proof.
  induction l as [|c l IH]; simpl; [reflexivity|].
  destruct (p c); [exact IH|discriminate].
Qed.

Lemma dropWhile_app_all p : forall l r,
  forallb p l = true -> dropWhile p (l ++ r) = dropWhile p r.
Proof.
  induction l as [|c l IH]; intros r; simpl; [reflexivity|].
  destruct (p c); [apply IH|discriminate].
Qed.

Lemma dropWhile_app_some p : forall l r,
  forallb p l = false -> dropWhile p (l ++ r) = dropWhile p l ++ r.
Proof.
  induction l as [|c l IH]; intros r; simpl; [discriminate|].
  destruct (p c); [apply IH|reflexivity].
Qed.

Lemma forallb_rev p (l : str) : forallb p (rev l) = forallb p l.
Proof.
  induction l as [|c l IH]; simpl; [reflexivity|].
  rewrite forallb_app, IH. simpl. rewrite andb_true_r. apply andb_comm.
Qed.

Lemma beforeTrailingStars_spec : forall s,
  beforeTrailingStars s = stripTrailingRun s.
Proof.
  unfold stripTrailingRun.
  induction s as [|c s IH]; [reflexivity|].
  cbn [beforeTrailingStars]. destruct (forallb isStar (c :: s)) eqn:E.
  - rewrite dropWhile_all; [reflexivity|]. now rewrite forallb_rev.
  - rewrite IH. cbn [rev]. simpl in E.
    destruct (forallb isStar s) eqn:Es.
    + rewrite andb_true_r in E.
      rewrite dropWhile_app_all by now rewrite forallb_rev.
      rewrite dropWhile_all by now rewrite forallb_rev.
      simpl. now rewrite E.
    + rewrite dropWhile_app_some by now rewrite forallb_rev.
      now rewrite rev_app_distr.
Qed.

(** The bullet text is the captured text without the marker runs at its
    two ends. *)
Lemma bulletText_strips captured :
  bulletText captured = stripTrailingRun (stripLeadingRun captured).
Proof.
  unfold bulletText.
  now rewrite replace_leadingStars, replace_trailingStars_before,
    beforeTrailingStars_spec.
Qed.

Lemma starless_dropWhile p s : starless s = true -> starless (dropWhile p s) = true.
Proof.
  destruct (dropWhile_suffix p s) as (a & H). intros Hs. rewrite H in Hs.
  unfold starless in *. rewrite forallb_app in Hs.
  now apply andb_prop in Hs as [_ Hs].
Qed.

Lemma stripTrailingRun_wrapped y :
  starless y = true -> stripTrailingRun (y ++ [star; star]) = y.
Proof.
  intros H. unfold stripTrailingRun. rewrite rev_app_distr. cbn [rev app].
  assert (E : dropWhile isStar (rev y) = rev y).
  { assert (Hr : starless (rev y) = true) by (unfold starless; now rewrite forallb_rev).
    destruct (rev y) as [|c r]; [reflexivity|].
    simpl. now rewrite (starless_head _ _ Hr). }
  cbn [dropWhile]. change (isStar star) with true. cbv iota.
  now rewrite E, rev_involutive.
Qed.

(** A text wrapped in double markers loses both of them (and the whitespace
    it starts with). *)
Lemma bulletText_wrapped x :
  starless x = true ->
  bulletText ([star; star] ++ x ++ [star; star]) = dropWhile isSpace x.
Proof.
  intros H. rewrite bulletText_strips.
  assert (E : stripLeadingRun ([star; star] ++ x ++ [star; star]) =
              dropWhile isSpace (dropWhile isStar (x ++ [star; star])))
    by reflexivity.
  rewrite E. clear E. destruct x as [|c x]; [reflexivity|].
  assert (E : dropWhile isStar ((c :: x) ++ [star; star]) =
              (c :: x) ++ [star; star])
    by (simpl; now rewrite (starless_head _ _ H)).
  rewrite E. clear E. destruct (forallb isSpace (c :: x)) eqn:E.
  - rewrite dropWhile_app_all by assumption.
    now rewrite (dropWhile_all _ _ E).
  - rewrite dropWhile_app_some by assumption.
    apply stripTrailingRun_wrapped. now apply starless_dropWhile.
Qed.

End MarkerRuns.

(** ** The formatter on whitespace *)

Section Blank.

Lemma trim_blank s : forallb isSpace s = true -> trim s = [].
Proof. intros H. unfold trim. now rewrite (dropWhile_all _ _ H). Qed.

Lemma split_lines_forallb q : forall s,
  forallb q s = true -> Forall (fun l => forallb q l = true) (split_lines s).
Proof.
  induction s as [|c s IH]; simpl; intros H; [now constructor|].
  apply andb_prop in H as [Hc H]. specialize (IH H).
  destruct (N.eqb c LF); [now constructor|].
  destruct (split_lines s) as [|l ls]; [repeat constructor; simpl; now rewrite Hc|].
  inversion IH as [|? ? Hl Hls]; subst.
  constructor; [simpl; now rewrite Hc|assumption].
Qed.

Lemma forEach_blank : forall ls,
  Forall (fun l => forallb isSpace l = true) ls ->
  forEach initial ls = Some initial.
Proof.
  induction ls as [|l ls IH]; intros H; simpl; [reflexivity|].
  inversion H as [|? ? Hl Hls]; subst.
  rewrite processLine_blank by now apply trim_blank. simpl. now apply IH.
Qed.

Lemma starless_blank s : forallb isSpace s = true -> starless s = true.
Proof.
  unfold starless. induction s as [|c s IH]; simpl; [reflexivity|].
  intros H. apply andb_prop in H as [Hc H]. rewrite (IH H), andb_true_r.
  unfold notStar, isStar, star. destruct (N.eqb_spec c 42) as [->|]; [|reflexivity].
  discriminate Hc.
Qed.

Lemma format_blank s :
  forallb isSpace s = true ->
  format s = Some (match s with [] => Null | _ :: _ => Div [] end).
Proof.
  intros H. destruct s as [|c s]; [reflexivity|].
  unfold format. cbn [isEmpty].
  rewrite (cleanContent_starless _ (starless_blank _ H)).
  rewrite forEach_blank; [reflexivity|].
  apply split_lines_forallb. now apply forallb_replaceAll.
Qed.

End Blank.

(** ** Every line is accounted for *)

Section Accounting.




Lemma mapM_length {A B : Type} (f : A -> option B) : forall l bs,
  mapM f l = Some bs -> length bs = length l.
Proof.
  induction l as [|a l IH]; intros bs; simpl.
  - now intros [= <-].
  - destruct (f a) as [b|]; [|discriminate]. simpl.
    destruct (mapM f l) as [bs'|]; [|discriminate]. simpl.
    intros [= <-]. simpl. f_equal. now apply IH.
Qed.






End Accounting.

(** ** The formatter on the sample contents of the specification *)

Example format_heading :
  format (lit "## Soil Health") =
    Some (Div [Heading 2 [PlainText (lit "Soil Health")]]).
Proof. vm_compute. reflexivity. Qed.

Example format_bullets :
  format (unlines [lit "- Apply nitrogen"; lit "- Check pH"]) =
    Some (Div [BulletList [[PlainText (lit "Apply nitrogen")];
                           [PlainText (lit "Check pH")]]]).
Proof. vm_compute. reflexivity. Qed.

Example format_numbered :
  format (unlines [lit "1. First step"; lit "2. Second step"]) =
    Some (Div [NumberedList [[PlainText (lit "First step")];
                             [PlainText (lit "Second step")]]]).
Proof. vm_compute. reflexivity. Qed.

Example format_inline_bold :
  format (lit "Apply **urea** before rain") =
    Some (Div [Paragraph [PlainText (lit "Apply "); Emphasis (lit "urea");
                          PlainText (lit " before rain")]]).
Proof. vm_compute. reflexivity. Qed.

(** * The properties of the specification *)

(** A numbered line met inside an open list joins that list, whatever the
    type of the list ([openList] does nothing when [isInList] is set). *)
Lemma processLine_numbered_inside els items t line :
  classify (trim line) = KNumbered ->
  processLine (mkState els items true t) line =
  Some (mkState els (items ++ [numberedItem line]) true t).
Proof. intros H. now rewrite (processLine_numbered _ _ H). Qed.

(** C1: a numbered line that follows bullet lines without a blank line is
    not given a list of its own: the content "- a", line feed, "1. b" is one
    bullet list of two items, and the content "1. a", line feed, "- b" is
    one numbered list of two items. *)
Theorem mixed_markers_share_one_list :
  format (unlines [lit "- a"; lit "1. b"]) =
    Some (Div [BulletList [[PlainText (lit "a")]; [PlainText (lit "b")]]]) /\
  format (unlines [lit "1. a"; lit "- b"]) =
    Some (Div [NumberedList [[PlainText (lit "a")]; [PlainText (lit "b")]]]).
Proof. split; vm_compute; reflexivity. Qed.

(** C2: the pre-cleaning pass merges two raw lines that are both non-empty
    when a whitespace run of three or more units spans the line feed: the
    content "a  ", line feed, "b" is cleaned to the one line "a  b" and
    becomes one paragraph. *)
Theorem cleaning_merges_lines :
  split_lines (unlines [lit "a  "; lit "b"]) = [lit "a  "; lit "b"] /\
  cleanContent (unlines [lit "a  "; lit "b"]) = lit "a  b" /\
  format (unlines [lit "a  "; lit "b"]) =
    Some (Div [Paragraph [PlainText (lit "a  b")]]).
Proof. repeat split; vm_compute; reflexivity. Qed.

(** C3, as the claim states it: the spans are not an emphasis span followed
    by a plain span. *)
Lemma warning_label_not_emphasised :
  format (lit "**Warning:** Use less water") <>
    Some (Div [Paragraph [Emphasis (lit "Warning");
                          PlainText (lit ": Use less water")]]).
Proof. vm_compute. discriminate. Qed.

(** C3, amended: the line "**Warning:** Use less water" is not a header
    line; the pre-cleaning pass removes the marker run after the colon, the
    paragraph case removes the leading run, and the result is one paragraph
    whose only span is the plain text "Warning: Use less water". *)
Theorem warning_label_is_plain_paragraph :
  cleanContent (lit "**Warning:** Use less water") =
    lit "**Warning: Use less water" /\
  classify (trim (cleanContent (lit "**Warning:** Use less water"))) = KPlain /\
  format (lit "**Warning:** Use less water") =
    Some (Div [Paragraph [PlainText (lit "Warning: Use less water")]]).
Proof. repeat split; vm_compute; reflexivity. Qed.

(** C4, as the claim states it: the result is not a plain span followed by
    an emphasis span. *)
Lemma triple_markers_not_emphasised :
  format (lit "Plant health is ***excellent***") <>
    Some (Div [Paragraph [PlainText (lit "Plant health is ");
                          Emphasis (lit "excellent")]]).
Proof. vm_compute. discriminate. Qed.

(** C4, amended: the pre-cleaning pass removes each run of three markers of
    "Plant health is ***excellent***", and the result is one paragraph whose
    only span is the plain text "Plant health is excellent". *)
Theorem triple_markers_are_removed :
  cleanContent (lit "Plant health is ***excellent***") =
    lit "Plant health is excellent" /\
  format (lit "Plant health is ***excellent***") =
    Some (Div [Paragraph [PlainText (lit "Plant health is excellent")]]).
Proof. split; vm_compute; reflexivity. Qed.

(** C5: a line that is one emphasis-wrapped run is a level-3 heading only
    without the colon.  With the colon after the run, or before its closing
    markers, the pre-cleaning pass removes the markers next to the colon and
    the line becomes a paragraph; the loop body alone, given the same line,
    makes the heading. *)
Theorem bold_header_with_colon_is_paragraph :
  format (lit "**Header**") = Some (Div [Heading 3 [PlainText (lit "Header")]]) /\
  format (lit "**Header**:") = Some (Div [Paragraph [PlainText (lit "Header:")]]) /\
  format (lit "**Header:**") = Some (Div [Paragraph [PlainText (lit "Header:")]]) /\
  cleanContent (lit "**Header**:") = lit "**Header:" /\
  option_map elements (processLine initial (lit "**Header**:")) =
    Some [Heading 3 [PlainText (lit "Header")]].
Proof. repeat split; vm_compute; reflexivity. Qed.



(** The plain line of the sample above becomes the paragraph of its text
    without the marker it starts with and without the lone marker in it;
    a line of markers only adds nothing. *)
Example plain_line_becomes_paragraph :
  processLine initial (lit " *a **b* c ") =
    Some (push initial (Paragraph [PlainText (lit "a **b c")])) /\
  classify (trim (lit "** *")) = KPlain /\
  processLine initial (lit "** *") = Some initial.
Proof. repeat split; vm_compute; reflexivity. Qed.

(** C7: the empty content returns [null] and the content of three spaces an
    empty sequence; every content of whitespace only shows no node. *)
Theorem blank_content_shows_nothing :
  format (lit "") = Some Null /\
  format (lit "   ") = Some (Div []) /\
  forall s, forallb isSpace s = true ->
            exists r, format s = Some r /\ nodes r = [].
Proof.
  repeat split.
  intros s H. rewrite (format_blank _ H). destruct s; eauto.
Qed.

Lemma blank_content_shows_nothing_witness :
  forallb isSpace (unlines [lit "  "; lit " "]) = true /\
  exists r, format (unlines [lit "  "; lit " "]) = Some r /\ nodes r = [].
Proof.
  split; [reflexivity|].
  apply (proj2 (proj2 blank_content_shows_nothing)). reflexivity.
Defined.

(** On the lines the loop is given: when the lines of the cleaned content
    are bullet lines, then one blank line, then bullet lines again, the
    result is two bullet lists, the first of the items before the blank line
    and the second of the items after it. *)
Theorem blank_line_separates_bullet_lists content bs1 blank bs2 :
  split_lines (cleanContent content) = bs1 ++ blank :: bs2 ->
  bs1 <> [] -> bs2 <> [] ->
  Forall isBulletLine bs1 -> Forall isBulletLine bs2 ->
  trim blank = [] ->
  exists items1 items2,
    mapM formatInlineText (map bulletItem bs1) = Some items1 /\
    mapM formatInlineText (map bulletItem bs2) = Some items2 /\
    length items1 = length bs1 /\ length items2 = length bs2 /\
    format content = Some (Div [BulletList items1; BulletList items2]).
Proof.
  intros Hl Hn1 Hn2 Hb1 Hb2 Hblank.
  assert (Hne : isEmpty content = false).
  { destruct content; [|reflexivity]. destruct bs1 as [|? [|? ?]]; try congruence;
      discriminate Hl. }
  assert (Hm1 : map bulletItem bs1 <> []) by (destruct bs1; simpl; congruence).
  assert (Hm2 : map bulletItem bs2 <> []) by (destruct bs2; simpl; congruence).
  destruct (flushList_bullets [] _ Hm1) as (items1 & Hi1 & Hf1).
  destruct (flushList_bullets [BulletList items1] _ Hm2) as (items2 & Hi2 & Hf2).
  exists items1, items2. repeat split; try assumption.
  - destruct (mapM_total formatInlineText (map bulletItem bs1)
                formatInlineText_total) as (i & E & L).
    rewrite length_map in L. congruence.
  - destruct (mapM_total formatInlineText (map bulletItem bs2)
                formatInlineText_total) as (i & E & L).
    rewrite length_map in L. congruence.
  - unfold format. rewrite Hne, Hl, forEach_app.
    unfold initial. rewrite (forEach_bullets _ [] bulletT Hb1 Hn1).
    cbn [bind forEach]. rewrite (processLine_blank _ _ Hblank), Hf1.
    cbn [bind app]. rewrite (forEach_bullets _ _ bulletT Hb2 Hn2).
    cbn [bind]. rewrite Hf2. reflexivity.
Qed.

Lemma blank_line_separates_bullet_lists_witness :
  split_lines (cleanContent (unlines [lit "- Apply nitrogen"; lit "* Check pH";
                                      lit ""; lit "- Water **early**"])) =
    [lit "- Apply nitrogen"; [bullet; space] ++ lit "Check pH"] ++
    lit "" :: [lit "- Water **early**"] /\
  [lit "- Apply nitrogen"; [bullet; space] ++ lit "Check pH"] <> [] /\
  [lit "- Water **early**"] <> [] /\
  Forall isBulletLine [lit "- Apply nitrogen"; [bullet; space] ++ lit "Check pH"] /\
  Forall isBulletLine [lit "- Water **early**"] /\
  trim (lit "") = [] /\
  exists items1 items2,
    mapM formatInlineText
      (map bulletItem [lit "- Apply nitrogen"; [bullet; space] ++ lit "Check pH"]) =
      Some items1 /\
    mapM formatInlineText (map bulletItem [lit "- Water **early**"]) =
      Some items2 /\
    length items1 = 2 /\ length items2 = 1 /\
    format (unlines [lit "- Apply nitrogen"; lit "* Check pH"; lit "";
                     lit "- Water **early**"]) =
      Some (Div [BulletList items1; BulletList items2]).
Proof.
  assert (H1 : split_lines
                 (cleanContent (unlines [lit "- Apply nitrogen"; lit "* Check pH";
                                         lit ""; lit "- Water **early**"])) =
               [lit "- Apply nitrogen"; [bullet; space] ++ lit "Check pH"] ++
               lit "" :: [lit "- Water **early**"]) by (vm_compute; reflexivity).
  assert (H2 : [lit "- Apply nitrogen"; [bullet; space] ++ lit "Check pH"] <> [])
    by discriminate.
  assert (H3 : [lit "- Water **early**"] <> []) by discriminate.
  assert (H4 : Forall isBulletLine
                 [lit "- Apply nitrogen"; [bullet; space] ++ lit "Check pH"])
    by (repeat constructor; vm_compute; reflexivity).
  assert (H5 : Forall isBulletLine [lit "- Water **early**"])
    by (repeat constructor; vm_compute; reflexivity).
  assert (H6 : trim (lit "") = []) by reflexivity.
  repeat (split; [assumption|]).
  exact (blank_line_separates_bullet_lists _ _ _ _ H1 H2 H3 H4 H5 H6).
Defined.

(** C8: a blank line between bullet lines does not always give two lists.
    When whitespace stands next to the line break (a space at the end of the
    bullet line before it, or a blank line that holds a space), the
    pre-cleaning pass turns the run of three whitespace units or more, line
    feeds included, into two spaces: the three raw lines (bullet, blank,
    bullet) become one line, and the result is one bullet list of one item. *)
Theorem blank_line_lost_in_cleaning :
  map (fun l => classify (trim l)) (split_lines (unlines [lit "- a "; lit ""; lit "- b"])) =
    [KBullet; KBlank; KBullet] /\
  cleanContent (unlines [lit "- a "; lit ""; lit "- b"]) = lit "- a  - b" /\
  format (unlines [lit "- a "; lit ""; lit "- b"]) =
    Some (Div [BulletList [[PlainText (lit "a  - b")]]]) /\
  map (fun l => classify (trim l)) (split_lines (unlines [lit "- a"; lit " "; lit "- b"])) =
    [KBullet; KBlank; KBullet] /\
  format (unlines [lit "- a"; lit " "; lit "- b"]) =
    Some (Div [BulletList [[PlainText (lit "a  - b")]]]) /\
  format (unlines [lit "- a"; lit ""; lit "- b"]) =
    Some (Div [BulletList [[PlainText (lit "a")]]; BulletList [[PlainText (lit "b")]]]).
Proof. repeat split; vm_compute; reflexivity. Qed.

(** C9: a content of one line without emphasis markers that the formatter
    takes for a plain line (not blank, no heading, bullet or numbered
    marker) becomes one paragraph of one plain span, and formatting the text
    of that span again gives the same paragraph. *)
Theorem plain_text_is_fixed_point s :
  starless s = true -> oneLine s = true ->
  classify (trim (cleanContent s)) = KPlain ->
  exists t,
    format s = Some (Div [Paragraph [PlainText t]]) /\
    plainOf [PlainText t] = t /\
    format t = Some (Div [Paragraph [PlainText t]]).
Proof.
  intros Hs Hl Hk. exists (trim (cleanContent s)).
  split; [now apply format_plain_line|].
  split; [apply app_nil_r|].
  assert (Ht : starless (trim (cleanContent s)) = true).
  { rewrite (cleanContent_starless _ Hs).
    now apply forallb_trim, starless_collapse. }
  assert (Ho : oneLine (trim (cleanContent s)) = true).
  { rewrite (cleanContent_starless _ Hs).
    now apply forallb_trim, oneLine_collapse. }
  pose proof (clean_trim_stable _ Hs) as E.
  rewrite <- E at 2. apply format_plain_line; [assumption|assumption|].
  now rewrite E.
Qed.

Lemma plain_text_is_fixed_point_witness :
  starless (lit "  Water the   field at 6 - 7 am.  ") = true /\
  oneLine (lit "  Water the   field at 6 - 7 am.  ") = true /\
  classify (trim (cleanContent (lit "  Water the   field at 6 - 7 am.  "))) =
    KPlain /\
  exists t,
    format (lit "  Water the   field at 6 - 7 am.  ") =
      Some (Div [Paragraph [PlainText t]]) /\
    plainOf [PlainText t] = t /\
    format t = Some (Div [Paragraph [PlainText t]]).
Proof.
  split; [reflexivity|]. split; [reflexivity|]. split; [reflexivity|].
  apply plain_text_is_fixed_point; reflexivity.
Defined.

(** C10: for a bullet line the loop body stores the captured text without the
    run of markers it starts with (and the whitespace after that run) and
    without the run of markers it ends with; a captured text wrapped in
    double markers, such as that of "- **item**", is therefore stored without
    them and becomes one plain span, no emphasis span. *)
Theorem bullet_text_loses_end_markers st line m :
  classify (trim line) = KBullet ->
  matchedBullet (trim line) = Some m ->
  (exists st1, openList bulletT st = Some st1 /\
     processLine st line = Some (addItem st1 (bulletText (group1 m)))) /\
  bulletText (group1 m) = stripTrailingRun (stripLeadingRun (group1 m)) /\
  forall x, starless x = true ->
            group1 m = [star; star] ++ x ++ [star; star] ->
            bulletText (group1 m) = dropWhile isSpace x /\
            formatInlineText (bulletText (group1 m)) =
              Some [PlainText (dropWhile isSpace x)].
Proof.
  intros Hk Hm. split; [|split].
  - destruct (openList_total bulletT st) as (st1 & Ho). exists st1.
    split; [assumption|].
    rewrite (processLine_bullet _ _ Hk), Ho. unfold bulletItem. now rewrite Hm.
  - apply bulletText_strips.
  - intros x Hx ->. rewrite (bulletText_wrapped _ Hx). split; [reflexivity|].
    apply formatInlineText_starless. now apply starless_dropWhile.
Qed.

Lemma bullet_text_loses_end_markers_witness :
  classify (trim (lit "- **item**")) = KBullet /\
  matchedBullet (trim (lit "- **item**")) =
    Some (Matched 0 10 (Some (lit "**item**"))) /\
  starless (lit "item") = true /\
  bulletText (lit "**item**") = lit "item" /\
  formatInlineText (bulletText (lit "**item**")) = Some [PlainText (lit "item")] /\
  format (lit "- **item**") = Some (Div [BulletList [[PlainText (lit "item")]]]).
Proof.
  assert (Hk : classify (trim (lit "- **item**")) = KBullet) by reflexivity.
  assert (Hm : matchedBullet (trim (lit "- **item**")) =
               Some (Matched 0 10 (Some (lit "**item**")))) by reflexivity.
  assert (Hx : starless (lit "item") = true) by reflexivity.
  destruct (bullet_text_loses_end_markers initial _ _ Hk Hm) as (_ & _ & H).
  destruct (H (lit "item") Hx eq_refl) as [H1 H2].
  repeat (split; [assumption|]). vm_compute. reflexivity.
Defined.

(** * Further properties of the code *)

(** ** Replacements in general *)

Section Replacements.

Lemma run_minLen r : forall prev s n c,
  run r prev s = Some (n, c) -> minLen r <= n.
Proof.
  induction r as [|a r IH]; intros prev s n c; simpl.
  - intros _. lia.
  - destruct a as [m| |p|p lo hi g|p lo hi g|p|p].
    + destruct (atBol m prev); [apply IH|discriminate].
    + destruct s; [apply IH|discriminate].
    + destruct s as [|x s]; [discriminate|].
      destruct (p x); [|discriminate].
      intros H. apply shift_some in H as (k & H1 & ->).
      apply IH in H1. lia.
    + intros H. apply firstSome_some in H as (k & Hk & H1).
      apply counts_in in Hk.
      apply shift_some in H1 as (k' & H2 & ->).
      apply IH in H2. lia.
    + intros H. apply firstSome_some in H as (k & Hk & H1).
      apply counts_in in Hk.
      apply capture_some in H1 as (c' & H2 & _).
      apply shift_some in H2 as (k' & H3 & ->).
      apply IH in H3. lia.
    + destruct prev as [x|]; [destruct (p x); [discriminate|]|]; apply IH.
    + destruct s as [|x s]; [|destruct (p x); [discriminate|]]; apply IH.
Qed.

(** A replacement by a text no longer than any match does not lengthen. *)
Lemma replaceAllFrom_length r by_ :
  length by_ <= minLen r ->
  forall s prev k, k <= length s ->
    length (replaceAllFrom r by_ prev s k) + k <= length s.
Proof.
  intros Hby. induction s as [|c s IH]; intros prev k Hk; cbn [replaceAllFrom].
  - simpl in Hk. destruct k; [|lia].
    destruct (run r prev []) as [[n g]|] eqn:E; [|simpl; lia].
    pose proof (run_minLen _ _ _ _ _ E). apply run_le in E. simpl in E. lia.
  - simpl in Hk. destruct k as [|k].
    + destruct (run r prev (c :: s)) as [[[|n] g]|] eqn:E.
      * pose proof (run_minLen _ _ _ _ _ E).
        assert (length by_ = 0) by lia.
        rewrite length_app. simpl. specialize (IH (Some c) 0 ltac:(lia)). lia.
      * pose proof (run_minLen _ _ _ _ _ E). apply run_le in E. simpl in E.
        rewrite length_app. specialize (IH (Some c) n ltac:(lia)). simpl. lia.
      * simpl. specialize (IH (Some c) 0 ltac:(lia)). lia.
    + specialize (IH (Some c) k ltac:(lia)). simpl. lia.
Qed.

Lemma replaceAll_length r by_ s :
  length by_ <= minLen r -> length (replaceAll r by_ s) <= length s.
Proof.
  intros H. pose proof (replaceAllFrom_length r by_ H s None 0 ltac:(lia)).
  unfold replaceAll. lia.
Qed.

Lemma countLF_app a b : countLF (a ++ b) = countLF a + countLF b.
Proof.
  induction a as [|c a IH]; simpl; [reflexivity|].
  destruct (N.eqb c LF); simpl; now rewrite IH.
Qed.

(** A replacement by a text without line feed adds no line feed. *)
Lemma replaceAllFrom_countLF r by_ :
  countLF by_ = 0 ->
  forall s prev k, countLF (replaceAllFrom r by_ prev s k) <= countLF s.
Proof.
  intros Hby. induction s as [|c s IH]; intros prev k; cbn [replaceAllFrom].
  - destruct k; [|simpl; lia]. destruct (run r prev []); simpl; lia.
  - destruct k as [|k].
    + destruct (run r prev (c :: s)) as [[[|n] g]|].
      * rewrite countLF_app, Hby. simpl.
        specialize (IH (Some c) 0). destruct (N.eqb c LF); lia.
      * rewrite countLF_app, Hby. simpl.
        specialize (IH (Some c) n). destruct (N.eqb c LF); lia.
      * simpl. specialize (IH (Some c) 0). destruct (N.eqb c LF); lia.
    + simpl. specialize (IH (Some c) k). destruct (N.eqb c LF); lia.
Qed.

Lemma replaceAll_countLF r by_ s :
  countLF by_ = 0 -> countLF (replaceAll r by_ s) <= countLF s.
Proof. intros H. now apply replaceAllFrom_countLF. Qed.

Lemma split_lines_length : forall s, length (split_lines s) = S (countLF s).
Proof.
  induction s as [|c s IH]; simpl; [reflexivity|].
  destruct (N.eqb c LF); simpl; [now rewrite IH|].
  destruct (split_lines s); simpl in *; [discriminate|assumption].
Qed.

(** A replacement by one unit that is no whitespace makes no long run of
    whitespace. *)
Lemma replaceAllFrom_noRun3 r b :
  isSpace b = false ->
  forall s prev k, noRun3 s ->
    noRun3 (replaceAllFrom r [b] prev s k) /\
    (k = 0 -> spanLen isSpace (replaceAllFrom r [b] prev s 0) <= spanLen isSpace s).
Proof.
  intros Hb. induction s as [|c s IH]; intros prev k Hn; cbn [replaceAllFrom].
  - destruct k.
    + destruct (run r prev []); simpl; rewrite ?Hb; repeat split; lia.
    + simpl. split; [exact I|discriminate].
  - destruct Hn as [Hc Hn]. destruct k as [|k].
    + destruct (run r prev (c :: s)) as [[[|n] g]|].
      * destruct (IH (Some c) 0 Hn) as [H1 H2]. specialize (H2 eq_refl).
        cbn [app]. split.
        -- cbn [noRun3]. split; [simpl; rewrite Hb; lia|].
           split; [|exact H1].
           simpl in *. destruct (isSpace c); lia.
        -- intros _. simpl. rewrite Hb. lia.
      * destruct (IH (Some c) n Hn) as [H1 _]. cbn [app]. split.
        -- cbn [noRun3]. split; [simpl; rewrite Hb; lia|exact H1].
        -- intros _. simpl. rewrite Hb. lia.
      * destruct (IH (Some c) 0 Hn) as [H1 H2]. specialize (H2 eq_refl). split.
        -- cbn [noRun3]. split; [|exact H1].
           simpl in *. destruct (isSpace c); lia.
        -- intros _. simpl in *. destruct (isSpace c); lia.
    + split; [apply IH; assumption|discriminate].
Qed.

Lemma replaceAll_noRun3 r b s :
  isSpace b = false -> noRun3 s -> noRun3 (replaceAll r [b] s).
Proof. intros Hb Hn. now apply replaceAllFrom_noRun3. Qed.

End Replacements.

(** ** What cleanContent guarantees *)

Section Cleaning.

(** X1: the cleaned text has no run of three whitespace units: at every
    position at most two whitespace units follow each other. *)
Theorem cleanContent_no_long_whitespace s n :
  spanLen isSpace (skipn n (cleanContent s)) <= 2.
Proof.
  apply noRun3_skipn. unfold cleanContent.
  apply replaceAll_noRun3; [reflexivity|].
  apply replaceAll_noRun3; [reflexivity|].
  apply collapse_noRun3.
Qed.

(** X2: cleaning never makes the text longer. *)
Theorem cleanContent_length s : length (cleanContent s) <= length s.
Proof.
  unfold cleanContent.
  pose proof (replaceAll_length Re.lineStar [bullet; space] s) as H1.
  pose proof (fun t => replaceAll_length Re.stars3 [] t) as H2.
  pose proof (fun t => replaceAll_length Re.spacedStars [] t) as H3.
  pose proof (fun t => replaceAll_length Re.spaces3 [space; space] t) as H4.
  pose proof (fun t => replaceAll_length Re.starsColon [colon] t) as H5.
  pose proof (fun t => replaceAll_length Re.colonStars [colon] t) as H6.
  simpl in H1, H2, H3, H4, H5, H6.
  specialize (H1 ltac:(lia)).
  eapply Nat.le_trans; [apply H6; lia|].
  eapply Nat.le_trans; [apply H5; lia|].
  eapply Nat.le_trans; [apply H4; lia|].
  eapply Nat.le_trans; [apply H3; lia|].
  eapply Nat.le_trans; [apply H2; lia|].
  exact H1.
Qed.

(** X3: cleaning never adds a line: the cleaned text splits into no more
    lines than the raw text. *)
Theorem cleanContent_lines s :
  length (split_lines (cleanContent s)) <= length (split_lines s).
Proof.
  rewrite !split_lines_length. apply le_n_S. unfold cleanContent.
  eapply Nat.le_trans; [apply replaceAll_countLF; reflexivity|].
  eapply Nat.le_trans; [apply replaceAll_countLF; reflexivity|].
  eapply Nat.le_trans; [apply replaceAll_countLF; reflexivity|].
  eapply Nat.le_trans; [apply replaceAll_countLF; reflexivity|].
  eapply Nat.le_trans; [apply replaceAll_countLF; reflexivity|].
  apply replaceAll_countLF; reflexivity.
Qed.

End Cleaning.

(** ** Markers next to colons *)

Section Colons.

Lemma replaceAllFrom_prev r by_ :
  (forall prev prev' s, run r prev s = run r prev' s) ->
  forall s prev prev' k,
    replaceAllFrom r by_ prev s k = replaceAllFrom r by_ prev' s k.
Proof.
  intros Hr. induction s as [|c s IH]; intros prev prev' k; cbn [replaceAllFrom].
  - now rewrite (Hr prev prev').
  - destruct k as [|k]; [|reflexivity]. now rewrite (Hr prev prev').
Qed.

(** One step of a replacement whose expression does not look behind. *)
Lemma replaceAll_step r by_ c s :
  (forall prev prev' t, run r prev t = run r prev' t) ->
  replaceAll r by_ (c :: s) =
  match run r None (c :: s) with
  | Some (0, _) => by_ ++ c :: replaceAll r by_ s
  | Some (S k, _) => by_ ++ replaceAll r by_ (skipn k s)
  | None => c :: replaceAll r by_ s
  end.
Proof.
  intros Hr. unfold replaceAll. cbn [replaceAllFrom].
  destruct (run r None (c :: s)) as [[[|k] g]|] eqn:E.
  - now rewrite (replaceAllFrom_prev r by_ Hr s (Some c) None).
  - apply run_le in E. simpl in E.
    rewrite replaceAllFrom_skip by lia.
    now rewrite (replaceAllFrom_prev r by_ Hr _ _ None).
  - now rewrite (replaceAllFrom_prev r by_ Hr s (Some c) None).
Qed.

Lemma spanLen_inside p : forall s n,
  n < spanLen p s -> exists c t, skipn n s = c :: t /\ p c = true.
Proof.
  induction s as [|x s IH]; intros n; simpl; [lia|].
  destruct (p x) eqn:E; [|lia].
  destruct n as [|n]; [intros _; simpl; eauto|].
  intros H. apply IH. lia.
Qed.

Lemma isColon_eq c : isColon c = true -> c = colon.
Proof. apply N.eqb_eq. Qed.

Lemma isStar_eq c : isStar c = true -> c = star.
Proof. apply N.eqb_eq. Qed.

Lemma hasPair_skipn p q : forall s n,
  hasPair p q s = false -> hasPair p q (skipn n s) = false.
Proof.
  induction s as [|c s IH]; intros [|n] H; simpl skipn; auto.
  apply IH. simpl in H. now apply orb_false_elim in H as [_ H].
Qed.

Lemma headIs_dropWhile p s : headIs p (dropWhile p s) = false.
Proof.
  destruct (dropWhile p s) as [|c t] eqn:E; [reflexivity|].
  simpl. eapply dropWhile_head; eauto.
Qed.

Lemma run_starsColon prev s :
  run Re.starsColon prev s =
  if matchStarsColon s then Some (S (spanLen isStar s), None) else None.
Proof.
  unfold Re.starsColon, matchStarsColon. rewrite run_Rep.
  destruct (Nat.leb_spec 1 (spanLen isStar s)) as [H|H]; cbn [andb].
  - rewrite counts_greedy by assumption. cbn [firstSome].
    rewrite skipn_spanLen, run_Chr.
    assert (Hrest : firstSome
              (fun n => shift n (run [Chr isColon] (prevAfter prev s n) (skipn n s)))
              (rev (seq 1 (spanLen isStar s - 1))) = None).
    { apply firstSome_none. intros n Hn. apply in_rev, in_seq in Hn.
      destruct (spanLen_inside isStar s n ltac:(lia)) as (c & t & -> & Hc).
      rewrite run_Chr. apply isStar_eq in Hc. now subst c. }
    destruct (dropWhile isStar s) as [|c t]; cbn [headIs shift]; [exact Hrest|].
    destruct (isColon c); [|exact Hrest].
    cbn [run shift]. now rewrite Nat.add_1_r.
  - now rewrite counts_nil.
Qed.

Lemma starsColon_step c s :
  replaceAll Re.starsColon [colon] (c :: s) =
  if matchStarsColon (c :: s)
  then colon :: replaceAll Re.starsColon [colon] (skipn (spanLen isStar (c :: s)) s)
  else c :: replaceAll Re.starsColon [colon] s.
Proof.
  rewrite replaceAll_step
    by (intros; now rewrite (run_starsColon prev), (run_starsColon prev')).
  rewrite run_starsColon. now destruct (matchStarsColon (c :: s)).
Qed.

(** After [/\*+:/g] no [*] stands before a colon. *)
Lemma starsColon_spec : forall n s, length s <= n ->
  hasPair isStar isColon (replaceAll Re.starsColon [colon] s) = false /\
  (headIs isColon (replaceAll Re.starsColon [colon] s) = true ->
   headIs isColon s = true \/ matchStarsColon s = true).
Proof.
  induction n as [|n IH]; intros [|c s] Hl; simpl in Hl; try lia;
    try (split; [reflexivity|discriminate]).
  rewrite starsColon_step. destruct (matchStarsColon (c :: s)) eqn:M.
  - split; [|now right].
    destruct (IH (skipn (spanLen isStar (c :: s)) s)) as [H _].
    { rewrite length_skipn. lia. }
    cbn [hasPair]. now rewrite H.
  - destruct (IH s ltac:(lia)) as [H1 H2].
    split; [|cbn [headIs]; now left].
    cbn [hasPair]. rewrite H1, orb_false_r.
    destruct (isStar c) eqn:Ec; [|reflexivity]. cbn [andb].
    destruct (headIs isColon (replaceAll Re.starsColon [colon] s)) eqn:Eh;
      [|reflexivity].
    exfalso. unfold matchStarsColon in M. simpl in M. rewrite Ec in M.
    cbn [Nat.leb andb] in M.
    destruct (H2 eq_refl) as [Hs|Hs].
    + destruct s as [|x s]; [discriminate|]. simpl in Hs.
      apply isColon_eq in Hs. subst x. simpl in M. discriminate.
    + unfold matchStarsColon in Hs. apply andb_prop in Hs as [_ Hs]. congruence.
Qed.

Lemma run_colonStars prev s :
  run Re.colonStars prev s =
  match s with
  | c :: s' =>
      if isColon c && (1 <=? spanLen isStar s')
      then Some (S (spanLen isStar s'), None) else None
  | [] => None
  end.
Proof.
  unfold Re.colonStars. rewrite run_Chr. destruct s as [|c s]; [reflexivity|].
  destruct (isColon c); [|reflexivity]. cbn [andb]. rewrite run_Rep.
  destruct (Nat.leb_spec 1 (spanLen isStar s)) as [H|H].
  - rewrite counts_greedy by assumption. cbn [firstSome run shift].
    now rewrite Nat.add_0_r.
  - now rewrite counts_nil.
Qed.

Lemma colonStars_step c s :
  replaceAll Re.colonStars [colon] (c :: s) =
  if isColon c && (1 <=? spanLen isStar s)
  then colon :: replaceAll Re.colonStars [colon] (dropWhile isStar s)
  else c :: replaceAll Re.colonStars [colon] s.
Proof.
  rewrite replaceAll_step
    by (intros; now rewrite (run_colonStars prev), (run_colonStars prev')).
  rewrite run_colonStars.
  destruct (isColon c && (1 <=? spanLen isStar s)); [|reflexivity].
  now rewrite skipn_spanLen.
Qed.

(** After [/:\*+/g] no [*] stands after a colon, and none before a colon if
    none did. *)
Lemma colonStars_spec : forall n s, length s <= n ->
  hasPair isStar isColon s = false ->
  hasPair isColon isStar (replaceAll Re.colonStars [colon] s) = false /\
  hasPair isStar isColon (replaceAll Re.colonStars [colon] s) = false /\
  forall q, headIs q (replaceAll Re.colonStars [colon] s) = headIs q s.
Proof.
  induction n as [|n IH]; intros [|c s] Hl Hp; simpl in Hl; try lia;
    try (repeat split; reflexivity).
  rewrite colonStars_step.
  cbn [hasPair] in Hp. apply orb_false_elim in Hp as [Hc Hp].
  destruct (isColon c && (1 <=? spanLen isStar s)) eqn:M.
  - apply andb_prop in M as [Mc _]. apply isColon_eq in Mc. subst c.
    destruct (IH (dropWhile isStar s)) as (H1 & H2 & H3).
    { rewrite <- skipn_spanLen, length_skipn. lia. }
    { rewrite <- skipn_spanLen. now apply hasPair_skipn. }
    cbn [hasPair headIs]. rewrite H1, H2, H3, headIs_dropWhile.
    repeat split; reflexivity.
  - destruct (IH s ltac:(lia) Hp) as (H1 & H2 & H3).
    cbn [hasPair headIs]. rewrite H1, H2, !H3, Hc.
    repeat split; try reflexivity.
    rewrite orb_false_r. destruct (isColon c); [|reflexivity].
    cbn [andb] in *. destruct s as [|x s]; [reflexivity|].
    simpl in *. destruct (isStar x); [discriminate M|reflexivity].
Qed.

(** X4: in the cleaned text no emphasis marker touches a colon, on either
    side. *)
Theorem cleanContent_no_marker_at_colon s :
  hasPair isStar isColon (cleanContent s) = false /\
  hasPair isColon isStar (cleanContent s) = false.
Proof.
  unfold cleanContent.
  set (t := replaceAll Re.spaces3 _ _).
  destruct (starsColon_spec (length t) t (le_n _)) as [H _].
  destruct (colonStars_spec _ _ (le_n _) H) as (H1 & H2 & _).
  now split.
Qed.

End Colons.

(** ** The spans of formatInlineText *)

Section Spans.

Lemma forallb_firstn_span p : forall s n,
  n <= spanLen p s -> forallb p (firstn n s) = true.
Proof.
  induction s as [|c s IH]; intros [|n]; simpl; auto.
  destruct (p c) eqn:E; [|lia]. intros H. simpl. apply IH. lia.
Qed.

(** What [boldRegex] matches: double markers, a text of one unit or more on
    one line, double markers. *)
Lemma run_boldRegex prev t n c :
  run Re.boldRegex prev t = Some (n, c) ->
  exists g, c = Some g /\ firstn n t = [star; star] ++ g ++ [star; star] /\
            g <> [] /\ forallb anyChar g = true.
Proof.
  unfold Re.boldRegex. rewrite run_Chr.
  destruct t as [|a t]; [discriminate|].
  destruct (isStar a) eqn:Ea; [|discriminate]. apply isStar_eq in Ea. subst a.
  intros H. apply shift_some in H as (n1 & H & ->). rewrite run_Chr in H.
  destruct t as [|b t]; [discriminate|].
  destruct (isStar b) eqn:Eb; [|discriminate]. apply isStar_eq in Eb. subst b.
  apply shift_some in H as (n2 & H & ->). rewrite run_Grp in H.
  apply firstSome_some in H as (k & Hk & H). apply counts_in in Hk.
  apply capture_some in H as (c' & H & ->).
  apply shift_some in H as (n3 & H & ->). rewrite run_Chr in H.
  destruct (skipn k t) as [|x u] eqn:Eu; [discriminate|].
  destruct (isStar x) eqn:Ex; [|discriminate]. apply isStar_eq in Ex. subst x.
  apply shift_some in H as (n4 & H & ->). rewrite run_Chr in H.
  destruct u as [|y u]; [discriminate|].
  destruct (isStar y) eqn:Ey; [|discriminate]. apply isStar_eq in Ey. subst y.
  apply shift_some in H as (n5 & H & ->). simpl in H. injection H as <- _.
  exists (firstn k t). split; [reflexivity|].
  pose proof (spanLen_le anyChar t) as Hle.
  split; [|split].
  - replace (1 + (1 + (k + (1 + (1 + 0))))) with (S (S (k + 2))) by lia.
    cbn [firstn app]. do 2 f_equal.
    rewrite <- (firstn_skipn k t) at 1.
    rewrite firstn_app, length_firstn, Nat.min_l by lia.
    rewrite firstn_firstn, Nat.min_r by lia.
    replace (k + 2 - k) with 2 by lia. now rewrite Eu.
  - intros E. apply (f_equal (@length char)) in E.
    rewrite length_firstn in E. simpl in E. lia.
  - apply forallb_firstn_span. lia.
Qed.

Lemma firstn_slice (s : str) a b :
  a <= b -> firstn a s ++ slice s a b = firstn b s.
Proof.
  intros H. unfold slice.
  rewrite <- (firstn_skipn a s) at 3.
  rewrite firstn_app, length_firstn.
  destruct (Nat.le_gt_cases a (length s)) as [Hl|Hl].
  - rewrite Nat.min_l by lia. rewrite firstn_all2 with (n := b)
      by (rewrite length_firstn; lia). reflexivity.
  - rewrite Nat.min_r by lia.
    rewrite !firstn_all2 by (rewrite ?length_firstn, ?length_skipn; lia).
    rewrite skipn_all2 by lia. reflexivity.
Qed.

(** A match found by [exec]: where it lies and what text it covers. *)
Lemma exec_boldRegex s i m :
  exec Re.boldRegex s i = Some m ->
  i <= m_index m /\ m_index m + m_len m <= length s /\
  exists g, m_group m = Some g /\
            slice s (m_index m) (m_index m + m_len m) =
              [star; star] ++ g ++ [star; star] /\
            g <> [] /\ forallb anyChar g = true.
Proof.
  intros H. pose proof (exec_bounds _ _ _ _ H) as [Hi Hl].
  split; [assumption|]. split; [assumption|].
  unfold exec in H. destruct (length s <? i); [discriminate|].
  apply search_run in H as (prev' & H). rewrite skipn_skipn in H.
  replace (m_index m - i + i) with (m_index m) in H by lia.
  apply run_boldRegex in H as (g & Hg & Hf & Hne & Ha).
  exists g. repeat split; try assumption.
  unfold slice. now replace (m_index m + m_len m - m_index m) with (m_len m) by lia.
Qed.

Lemma sourceOf_app a b : sourceOf (a ++ b) = sourceOf a ++ sourceOf b.
Proof. unfold sourceOf. now rewrite flat_map_app. Qed.

(** The loop keeps: the spans so far, written back, are the text up to
    [lastIndex], and each of them holds text. *)
Lemma boldLoop_spec : forall fuel s i parts parts' j,
  boldLoop fuel s i parts = Some (parts', j) ->
  i <= length s -> sourceOf parts = firstn i s -> Forall spanOK parts ->
  j <= length s /\ sourceOf parts' = firstn j s /\ Forall spanOK parts' /\
  (parts' = [] -> j = 0).
Proof.
  induction fuel as [|fuel IH]; intros s i parts parts' j; simpl; [discriminate|].
  destruct (exec Re.boldRegex s i) as [m|] eqn:E.
  - intros H Hi Hs Hok.
    apply exec_boldRegex in E as (Hm1 & Hm2 & g & Hg & Hsl & Hne & Ha).
    apply IH in H.
    + exact H.
    + assumption.
    + rewrite sourceOf_app. unfold group1. rewrite Hg.
      cbn [sourceOf flat_map markup]. rewrite app_nil_r, <- Hsl.
      rewrite <- (firstn_slice s (m_index m) (m_index m + m_len m)) by lia.
      f_equal. destruct (Nat.ltb_spec i (m_index m)) as [Hlt|Hge].
      * rewrite sourceOf_app. cbn [sourceOf flat_map markup].
        rewrite app_nil_r, Hs. apply firstn_slice. lia.
      * replace (m_index m) with i by lia. assumption.
    + apply Forall_app. split.
      * destruct (Nat.ltb_spec i (m_index m)) as [Hlt|Hge]; [|assumption].
        apply Forall_app. split; [assumption|]. constructor; [|constructor].
        simpl. unfold slice. intros E0.
        apply (f_equal (@length char)) in E0.
        rewrite length_firstn, length_skipn in E0. simpl in E0. lia.
      * constructor; [|constructor]. unfold group1. rewrite Hg. now split.
  - intros [= <- <-] Hi Hs Hok. repeat split; try assumption.
    intros ->. destruct i as [|i]; [reflexivity|].
    exfalso. simpl in Hs. destruct s; [simpl in Hi; lia|discriminate].
Qed.

(** X5: the spans lose nothing: written back, with each emphasis span
    between double markers, they are the text that [formatInlineText] parsed
    (the given text after its two replacements). *)
Theorem formatInlineText_sourceOf text spans :
  formatInlineText text = Some spans -> sourceOf spans = cleanedTextOf text.
Proof.
  unfold formatInlineText. fold (cleanedTextOf text).
  set (s := cleanedTextOf text).
  destruct (boldLoop (S (length s)) s 0 []) as [[parts j]|] eqn:E; [|discriminate].
  apply boldLoop_spec in E; [|lia|reflexivity|constructor].
  destruct E as (Hj & Hs & _ & _). intros [= <-].
  destruct (Nat.ltb_spec j (length s)) as [Hlt|Hge].
  - destruct parts as [|p parts].
    + simpl in *. cbn [sourceOf flat_map markup].
      rewrite app_nil_r. rewrite <- (firstn_skipn j s) at 2. now rewrite <- Hs.
    + cbn [app]. change (p :: parts ++ [PlainText (skipn j s)])
        with ((p :: parts) ++ [PlainText (skipn j s)]).
      rewrite sourceOf_app, Hs. cbn [sourceOf flat_map markup].
      rewrite app_nil_r. apply firstn_skipn.
  - destruct parts as [|p parts].
    + cbn [sourceOf flat_map markup]. apply app_nil_r.
    + rewrite Hs. apply firstn_all2. lia.
Qed.

(** X6: no span is empty and no emphasis span crosses a line, unless the
    parsed text itself is empty, which gives the one empty plain span. *)
Theorem formatInlineText_spans text spans :
  formatInlineText text = Some spans ->
  (cleanedTextOf text = [] /\ spans = [PlainText []]) \/
  (cleanedTextOf text <> [] /\ Forall spanOK spans).
Proof.
  unfold formatInlineText. fold (cleanedTextOf text).
  set (s := cleanedTextOf text).
  destruct (boldLoop (S (length s)) s 0 []) as [[parts j]|] eqn:E; [|discriminate].
  apply boldLoop_spec in E; [|lia|reflexivity|constructor].
  destruct E as (Hj & Hs & Hok & H0). intros [= <-].
  destruct (Nat.ltb_spec j (length s)) as [Hlt|Hge].
  - right. split; [intros E; rewrite E in Hlt; simpl in Hlt; lia|].
    assert (Hp : Forall spanOK (parts ++ [PlainText (skipn j s)])).
    { apply Forall_app. split; [assumption|]. constructor; [|constructor].
      simpl. intros E. apply (f_equal (@length char)) in E.
      rewrite length_skipn in E. simpl in E. lia. }
    destruct parts; exact Hp.
  - destruct parts as [|p parts].
    + left. specialize (H0 eq_refl). subst j.
      assert (Hn : s = []) by (destruct s; [reflexivity|simpl in Hge; lia]).
      now rewrite Hn.
    + right. split; [|assumption].
      intros E. rewrite E in Hs. rewrite firstn_nil in Hs.
      inversion Hok as [|? ? Hp _]; subst.
      destruct p as [v|v]; simpl in Hs, Hp.
      * apply app_eq_nil in Hs as [Hs _]. contradiction.
      * discriminate Hs.
Qed.

End Spans.

(** ** The line loop *)

Section Loop.

Lemma classify_h2 t :
  classify t = KH2 -> isEmpty t = false /\ exists m, str_match Re.h2 t = Some m.
Proof.
  unfold classify, matches. destruct (isEmpty t); [discriminate|].
  destruct (str_match Re.h2 t) as [m|]; [eauto|].
  destruct (str_match Re.h3 t); [discriminate|].
  destruct (str_match Re.boldHeader t); [discriminate|].
  destruct (_ || _); [discriminate|].
  destruct (str_match Re.numbered t); discriminate.
Qed.

Lemma classify_h3 t :
  classify t = KH3 ->
  isEmpty t = false /\ str_match Re.h2 t = None /\
  exists m, str_match Re.h3 t = Some m.
Proof.
  unfold classify, matches. destruct (isEmpty t); [discriminate|].
  destruct (str_match Re.h2 t) as [m|]; [discriminate|].
  destruct (str_match Re.h3 t); [eauto|].
  destruct (str_match Re.boldHeader t); [discriminate|].
  destruct (_ || _); [discriminate|].
  destruct (str_match Re.numbered t); discriminate.
Qed.

Lemma classify_boldHeader t :
  classify t = KBoldHeader ->
  isEmpty t = false /\ str_match Re.h2 t = None /\ str_match Re.h3 t = None /\
  exists m, str_match Re.boldHeader t = Some m.
Proof.
  unfold classify, matches. destruct (isEmpty t); [discriminate|].
  destruct (str_match Re.h2 t) as [m|]; [discriminate|].
  destruct (str_match Re.h3 t); [discriminate|].
  destruct (str_match Re.boldHeader t); [eauto|].
  destruct (_ || _); [discriminate|].
  destruct (str_match Re.numbered t); discriminate.
Qed.

Lemma classify_blank t : classify t = KBlank -> isEmpty t = true.
Proof.
  unfold classify, matches. destruct (isEmpty t); [reflexivity|].
  destruct (str_match Re.h2 t) as [m|]; [discriminate|].
  destruct (str_match Re.h3 t); [discriminate|].
  destruct (str_match Re.boldHeader t); [discriminate|].
  destruct (_ || _); [discriminate|].
  destruct (str_match Re.numbered t); discriminate.
Qed.

Lemma pushAll_nil st : pushAll st [] = st.
Proof. destruct st. unfold pushAll. simpl. now rewrite app_nil_r. Qed.

(** A line that is no list line flushes the open list and adds its nodes. *)
Lemma processLine_other st line :
  isListLine line = false ->
  processLine st line =
  (st1 <- flushList st;; ns <- lineNodes line;; Some (pushAll st1 ns)).
Proof.
  unfold isListLine, lineNodes. cbv zeta.
  destruct (classify (trim line)) eqn:K; try discriminate; intros _.
  - apply classify_blank in K. unfold processLine. rewrite K.
    destruct (flushList st) as [st1|]; [|reflexivity]. simpl.
    now rewrite pushAll_nil.
  - apply classify_h2 in K as (H0 & m & Hm). unfold processLine.
    rewrite H0, Hm. destruct (flushList st) as [st1|]; [|reflexivity]. simpl.
    now destruct (formatInlineText (group1 m)).
  - apply classify_h3 in K as (H0 & H1 & m & Hm). unfold processLine.
    rewrite H0, H1, Hm. destruct (flushList st) as [st1|]; [|reflexivity]. simpl.
    now destruct (formatInlineText (group1 m)).
  - apply classify_boldHeader in K as (H0 & H1 & H2 & m & Hm). unfold processLine.
    rewrite H0, H1, H2, Hm. now destruct (flushList st) as [st1|].
  - rewrite (processLine_plain _ _ K).
    destruct (flushList st) as [st1|]; [|reflexivity]. simpl.
    destruct (isEmpty (cleanedLine (trim line)));
      [cbn [bind]; now rewrite pushAll_nil|].
    now destruct (formatInlineText (cleanedLine (trim line))).
Qed.

(** A list line opens a list if none is open and adds its item. *)
Lemma processLine_list st line :
  isListLine line = true ->
  processLine st line =
  (st1 <- openList (listTypeOf line) st;; Some (addItem st1 (listItem line))).
Proof.
  unfold isListLine, listTypeOf, listItem.
  destruct (classify (trim line)) eqn:K; try discriminate; intros _.
  - apply processLine_bullet, K.
  - apply processLine_numbered, K.
Qed.

Lemma framed_refl st : framed [] st st.
Proof. unfold framed. auto. Qed.

Lemma flushList_framed els st st0 st0' :
  framed els st st0 -> consistent st0 -> flushList st0 = Some st0' ->
  exists st', flushList st = Some st' /\ framed els st' st0' /\
              listItems st0' = [] /\ isInList st0' = false.
Proof.
  intros (He & Hl & Hi & Ht) Hc. unfold flushList. rewrite Hl.
  destruct (listItems st0) as [|x l] eqn:E.
  - intros [= <-]. exists st. split; [reflexivity|].
    assert (Hf : isInList st0 = false).
    { destruct (isInList st0) eqn:B; [|reflexivity].
      destruct Hc as [Hc _]. now specialize (Hc B). }
    repeat split; try assumption. now rewrite E.
  - destruct (mapM formatInlineText (x :: l)) as [items|]; cbn [bind];
      [|discriminate].
    intros [= <-]. eexists. split; [reflexivity|].
    assert (Hin : isInList st0 = true) by (apply Hc; now rewrite E).
    rewrite (Ht Hin), He. unfold framed. cbn [elements listItems isInList listType].
    rewrite app_assoc. repeat split; auto.
Qed.

Lemma addItem_framed els t x st st0 st0' :
  framed els st st0 -> consistent st0 -> openList t st0 = Some st0' ->
  exists st', openList t st = Some st' /\
              framed els (addItem st' x) (addItem st0' x) /\
              consistent (addItem st0' x).
Proof.
  intros Hf Hc. pose proof Hf as (He & Hl & Hi & Ht).
  unfold openList. rewrite Hi. destruct (isInList st0) eqn:B; cbn [negb].
  - intros [= <-]. exists st. split; [reflexivity|].
    unfold framed, consistent, addItem. simpl. rewrite Hl, B.
    repeat split; auto. intros _ E. now apply app_eq_nil in E as [_ E].
  - destruct (flushList st0) as [f0|] eqn:E; [|discriminate]. simpl.
    intros [= <-].
    destruct (flushList_framed _ _ _ _ Hf Hc E) as (f & -> & (He' & Hl' & _) & _).
    simpl. eexists. split; [reflexivity|].
    unfold framed, consistent, addItem. simpl. rewrite Hl'.
    repeat split; auto. intros _ E0. now apply app_eq_nil in E0 as [_ E0].
Qed.

Lemma pushAll_framed els st st0 ns :
  framed els st st0 -> framed els (pushAll st ns) (pushAll st0 ns).
Proof.
  intros (He & Hl & Hi & Ht). unfold framed, pushAll. simpl.
  rewrite He, app_assoc. auto.
Qed.

(** The loop body does the same whatever was emitted before. *)
Lemma processLine_framed els st st0 st0' line :
  framed els st st0 -> consistent st0 -> processLine st0 line = Some st0' ->
  exists st', processLine st line = Some st' /\ framed els st' st0' /\
              consistent st0'.
Proof.
  intros Hf Hc. destruct (isListLine line) eqn:L.
  - rewrite !(processLine_list _ _ L).
    destruct (openList (listTypeOf line) st0) as [o0|] eqn:E; [|discriminate].
    simpl. intros [= <-].
    destruct (addItem_framed els _ (listItem line) _ _ _ Hf Hc E)
      as (o & -> & H1 & H2).
    simpl. eauto.
  - rewrite !(processLine_other _ _ L).
    destruct (flushList st0) as [f0|] eqn:E; [|discriminate]. simpl.
    destruct (flushList_framed _ _ _ _ Hf Hc E) as (f & -> & Hff & Hl0 & Hi0).
    simpl. destruct (lineNodes line) as [ns|]; [|discriminate]. simpl.
    intros [= <-]. eexists. split; [reflexivity|].
    split; [now apply pushAll_framed|].
    unfold consistent, pushAll. simpl. rewrite Hl0, Hi0. split; easy.
Qed.

Lemma forEach_framed : forall lines els st st0 st0',
  framed els st st0 -> consistent st0 -> forEach st0 lines = Some st0' ->
  exists st', forEach st lines = Some st' /\ framed els st' st0' /\
              consistent st0'.
Proof.
  induction lines as [|l lines IH]; intros els st st0 st0' Hf Hc; simpl.
  - intros [= <-]. eauto.
  - destruct (processLine st0 l) as [s0|] eqn:E; [|discriminate]. simpl.
    destruct (processLine_framed _ _ _ _ _ Hf Hc E) as (s & -> & Hf1 & Hc1).
    simpl. now apply IH.
Qed.

Lemma consistent_initial : consistent initial.
Proof. unfold consistent, initial. simpl. split; easy. Qed.

(** X7: a line that is no list line (a blank, heading or plain line) cuts
    the rendering in two: the lines before it, the line, and the lines after
    it are rendered each on their own and the results put one after the
    other. *)
Theorem renderLines_split A line B :
  isListLine line = false ->
  renderLines (A ++ line :: B) =
  (a <- renderLines A;; m <- lineNodes line;; b <- renderLines B;;
   Some (a ++ m ++ b)).
Proof.
  intros L. unfold renderLines. rewrite forEach_app.
  destruct (forEach_total A initial) as (sA & EA). rewrite EA. cbn [bind forEach].
  destruct (forEach_framed _ _ _ _ _ (framed_refl initial) consistent_initial EA)
    as (sA' & EA' & _ & HcA).
  rewrite (processLine_other _ _ L).
  destruct (flushList_total sA) as (fA & EfA). rewrite EfA. cbn [bind].
  destruct (flushList_framed _ _ _ _ (framed_refl sA) HcA EfA)
    as (_ & _ & _ & HlA & HiA).
  destruct (lineNodes line) as [ns|]; [|reflexivity]. cbn [bind].
  assert (Hf : framed (elements fA ++ ns) (pushAll fA ns) initial).
  { unfold framed, pushAll, initial. simpl. rewrite app_nil_r.
    repeat split; auto. discriminate. }
  destruct (forEach_total B initial) as (sB0 & EB0). rewrite EB0. cbn [bind].
  destruct (forEach_framed _ _ _ _ _ Hf consistent_initial EB0)
    as (sB & -> & HfB & HcB).
  cbn [bind].
  destruct (flushList_total sB0) as (fB0 & EfB0). rewrite EfB0. cbn [bind].
  destruct (flushList_framed _ _ _ _ HfB HcB EfB0) as (fB & -> & (He & _) & _).
  cbn [bind]. now rewrite He, app_assoc.
Qed.

End Loop.

(** ** Lists in the result *)

Section ListNodes.

(** [format] is [renderLines] on the lines of the cleaned content. *)
Lemma format_renderLines content :
  format content =
  if isEmpty content then Some Null
  else els <- renderLines (split_lines (cleanContent content));; Some (Div els).
Proof.
  unfold format, renderLines. destruct (isEmpty content); [reflexivity|].
  destruct (forEach initial _) as [st|]; [|reflexivity]. simpl.
  now destruct (flushList st).
Qed.

Lemma flushList_nodeOK st st' :
  Forall nodeOK (elements st) -> flushList st = Some st' ->
  Forall nodeOK (elements st').
Proof.
  intros H. unfold flushList. destruct (listItems st) as [|x l] eqn:E.
  - now intros [= <-].
  - destruct (mapM formatInlineText (x :: l)) as [items|] eqn:Em; cbn [bind];
      [|discriminate].
    intros [= <-]. cbn [elements]. apply Forall_app. split; [assumption|].
    apply mapM_length in Em. constructor; [|constructor].
    destruct (listType st); simpl; intros ->; discriminate Em.
Qed.

Lemma openList_nodeOK t st st' :
  Forall nodeOK (elements st) -> openList t st = Some st' ->
  Forall nodeOK (elements st').
Proof.
  intros H. unfold openList. destruct (negb (isInList st)); [|now intros [= <-]].
  destruct (flushList st) as [f|] eqn:E; cbn [bind]; [|discriminate].
  intros [= <-]. cbn [elements]. eapply flushList_nodeOK; eauto.
Qed.

Lemma lineNodes_nodeOK line ns : lineNodes line = Some ns -> Forall nodeOK ns.
Proof.
  unfold lineNodes. cbv zeta.
  destruct (classify (trim line)); try (intros [= <-]; now repeat constructor).
  - destruct (formatInlineText _); cbn [bind]; [|discriminate].
    intros [= <-]. now repeat constructor.
  - destruct (formatInlineText _); cbn [bind]; [|discriminate].
    intros [= <-]. now repeat constructor.
  - destruct (isEmpty _); [intros [= <-]; constructor|].
    destruct (formatInlineText _); cbn [bind]; [|discriminate].
    intros [= <-]. now repeat constructor.
Qed.

Lemma processLine_nodeOK st line st' :
  Forall nodeOK (elements st) -> processLine st line = Some st' ->
  Forall nodeOK (elements st').
Proof.
  intros H. destruct (isListLine line) eqn:L.
  - rewrite (processLine_list _ _ L).
    destruct (openList _ st) as [o|] eqn:E; cbn [bind]; [|discriminate].
    intros [= <-]. cbn [addItem elements]. eapply openList_nodeOK; eauto.
  - rewrite (processLine_other _ _ L).
    destruct (flushList st) as [f|] eqn:E; cbn [bind]; [|discriminate].
    destruct (lineNodes line) as [ns|] eqn:En; cbn [bind]; [|discriminate].
    intros [= <-]. cbn [pushAll elements]. apply Forall_app. split.
    + eapply flushList_nodeOK; eauto.
    + eapply lineNodes_nodeOK; eauto.
Qed.

Lemma forEach_nodeOK : forall lines st st',
  Forall nodeOK (elements st) -> forEach st lines = Some st' ->
  Forall nodeOK (elements st').
Proof.
  induction lines as [|l lines IH]; intros st st' H; simpl.
  - now intros [= <-].
  - destruct (processLine st l) as [s|] eqn:E; cbn [bind]; [|discriminate].
    apply IH. eapply processLine_nodeOK; eauto.
Qed.

(** X8: the formatter never shows an empty list: every list node of a result
    holds at least one item. *)
Theorem format_no_empty_list content r :
  format content = Some r -> Forall nodeOK (nodes r).
Proof.
  unfold format. destruct (isEmpty content); [intros [= <-]; constructor|].
  destruct (forEach initial _) as [st|] eqn:E; cbn [bind]; [|discriminate].
  destruct (flushList st) as [f|] eqn:Ef; cbn [bind]; [|discriminate].
  intros [= <-]. cbn [nodes].
  eapply flushList_nodeOK; [|exact Ef].
  eapply forEach_nodeOK; [|exact E]. constructor.
Qed.

Lemma format_no_empty_list_witness :
  format (unlines [lit "- *"; lit ""; lit "1. a"]) =
    Some (Div [BulletList [[PlainText []]]; NumberedList [[PlainText (lit "a")]]]) /\
  Forall nodeOK
    (nodes (Div [BulletList [[PlainText []]]; NumberedList [[PlainText (lit "a")]]])).
Proof.
  assert (H : format (unlines [lit "- *"; lit ""; lit "1. a"]) =
              Some (Div [BulletList [[PlainText []]];
                         NumberedList [[PlainText (lit "a")]]]))
    by (vm_compute; reflexivity).
  split; [exact H|]. exact (format_no_empty_list _ _ H).
Defined.

(** List lines met inside an open list join it, whatever their markers. *)
Lemma forEach_list_inside : forall ls els items t,
  forallb isListLine ls = true ->
  forEach (mkState els items true t) ls =
  Some (mkState els (items ++ map listItem ls) true t).
Proof.
  induction ls as [|l ls IH]; intros els items t H; simpl.
  - now rewrite app_nil_r.
  - simpl in H. apply andb_prop in H as [Hl H].
    rewrite (processLine_list _ _ Hl). unfold openList, addItem.
    cbn [isInList negb bind elements listItems listType].
    rewrite IH by assumption. now rewrite <- app_assoc.
Qed.

(** X9: consecutive list lines make one list, and the first of them alone
    decides its type: rendering list lines only, bullet and numbered mixed
    in any way, gives one list node of the type of the first line, holding
    the item of every line in order. *)
Theorem renderLines_one_list l ls :
  forallb isListLine (l :: ls) = true ->
  renderLines (l :: ls) =
  (items <- mapM formatInlineText (map listItem (l :: ls));;
   Some [listNode (listTypeOf l) items]).
Proof.
  intros H. simpl in H. apply andb_prop in H as [Hl H].
  unfold renderLines. cbn [forEach].
  rewrite (processLine_list _ _ Hl).
  unfold openList, initial, addItem, flushList.
  cbn [isInList negb listItems bind elements listType app].
  rewrite (forEach_list_inside _ _ _ _ H).
  cbn [bind listItems app map].
  destruct (mapM formatInlineText (listItem l :: map listItem ls)) as [items|];
    [|reflexivity].
  cbn [bind elements listType app]. unfold listNode.
  now destruct (listTypeOf l).
Qed.

Lemma renderLines_one_list_witness :
  forallb isListLine [lit "2) Sow"; lit "- Water"; lit "* Weed"] = true /\
  renderLines [lit "2) Sow"; lit "- Water"; lit "* Weed"] =
    (items <- mapM formatInlineText
                (map listItem [lit "2) Sow"; lit "- Water"; lit "* Weed"]);;
     Some [listNode (listTypeOf (lit "2) Sow")) items]).
Proof.
  split; [reflexivity|]. apply renderLines_one_list. reflexivity.
Defined.

End ListNodes.

(** ** The crop selection of MarketPrices *)

Section CropSelection.

Import MarketPrices.

Lemma strEq_spec : forall a b, strEq a b = true <-> a = b.
Proof.
  induction a as [|x a IH]; intros [|y b]; simpl; try easy.
  rewrite andb_true_iff, N.eqb_eq, IH. split.
  - now intros [-> ->].
  - now intros [= -> ->].
Qed.

Lemma includes_In crops crop : includes crops crop = true <-> In crop crops.
Proof.
  unfold includes. rewrite existsb_exists. split.
  - intros (c & Hc & E). apply strEq_spec in E. now subst.
  - intros H. exists crop. split; [assumption|]. now apply strEq_spec.
Qed.

Lemma includes_not_In crops crop : includes crops crop = false -> ~ In crop crops.
Proof.
  intros H Hin. apply includes_In in Hin. congruence.
Qed.

Lemma NoDup_snoc (crops : list str) crop :
  NoDup crops -> ~ In crop crops -> NoDup (crops ++ [crop]).
Proof.
  intros Hn Hin. induction Hn as [|c l Hc Hn IH]; simpl.
  - constructor; [easy|constructor].
  - constructor.
    + rewrite in_app_iff. simpl. intros [H|[H|[]]]; [contradiction|].
      subst. apply Hin. now left.
    + apply IH. intros H. apply Hin. now right.
Qed.

Lemma step_keeps st e :
  length (selectedCrops st) <= 5 /\ NoDup (selectedCrops st) ->
  length (selectedCrops (step st e)) <= 5 /\ NoDup (selectedCrops (step st e)).
Proof.
  intros [Hl Hn]. destruct e as [crop|value| |]; simpl.
  - unfold toggleCrop. destruct (includes (selectedCrops st) crop) eqn:Ei; simpl.
    + split; [|now apply NoDup_filter].
      pose proof (filter_length_le (fun c => negb (strEq c crop)) (selectedCrops st)).
      lia.
    + destruct (Nat.ltb_spec (length (selectedCrops st)) 5); simpl; [|auto].
      split; [rewrite length_app; simpl; lia|].
      apply NoDup_snoc; [assumption|now apply includes_not_In].
  - auto.
  - unfold addCustomCrop.
    destruct (negb (isEmpty (trim (customCrop st)))); simpl; [|auto].
    destruct (includes (selectedCrops st) (trim (customCrop st))) eqn:Ei; simpl;
      [auto|].
    destruct (Nat.ltb_spec (length (selectedCrops st)) 5); simpl; [|auto].
    split; [rewrite length_app; simpl; lia|].
    apply NoDup_snoc; [assumption|now apply includes_not_In].
  - split; [lia|constructor].
Qed.

Lemma fold_step_keeps : forall events st,
  length (selectedCrops st) <= 5 /\ NoDup (selectedCrops st) ->
  length (selectedCrops (fold_left step events st)) <= 5 /\
  NoDup (selectedCrops (fold_left step events st)).
Proof.
  induction events as [|e events IH]; intros st H; simpl; [assumption|].
  apply IH. now apply step_keeps.
Qed.

(** X10: whatever the user clicks and types in the selection step, at most
    five crops are selected and no crop is selected twice. *)
Theorem selection_at_most_five events :
  length (selectedCrops (run events)) <= 5 /\ NoDup (selectedCrops (run events)).
Proof.
  apply fold_step_keeps. simpl. split; [lia|constructor].
Qed.

Lemma filter_snoc_other (crops : list str) crop :
  ~ In crop crops ->
  filter (fun c => negb (strEq c crop)) (crops ++ [crop]) = crops.
Proof.
  intros Hin. rewrite filter_app. simpl.
  assert (E : strEq crop crop = true) by now apply strEq_spec.
  rewrite E. simpl. rewrite app_nil_r.
  induction crops as [|c l IH]; [reflexivity|]. simpl.
  destruct (strEq c crop) eqn:Ec.
  - apply strEq_spec in Ec. subst. exfalso. apply Hin. now left.
  - simpl. f_equal. apply IH. intros H. apply Hin. now right.
Qed.

(** X11: clicking a crop that is not selected, while fewer than five are,
    selects it, and clicking it again gives back the selection as it was,
    in the same order; neither click raises a toast. *)
Theorem toggleCrop_twice st crop :
  includes (selectedCrops st) crop = false ->
  length (selectedCrops st) < 5 ->
  includes (selectedCrops (fst (toggleCrop st crop))) crop = true /\
  snd (toggleCrop st crop) = None /\
  toggleCrop (fst (toggleCrop st crop)) crop = (st, None).
Proof.
  intros Hi Hl.
  assert (E : toggleCrop st crop =
              (mkState (selectedCrops st ++ [crop]) (customCrop st), None)).
  { unfold toggleCrop. rewrite Hi. apply Nat.ltb_lt in Hl. now rewrite Hl. }
  rewrite E. cbn [fst snd selectedCrops].
  assert (Hin : includes (selectedCrops st ++ [crop]) crop = true).
  { apply includes_In, in_app_iff. right. now left. }
  split; [assumption|]. split; [reflexivity|].
  unfold toggleCrop. cbn [selectedCrops customCrop]. rewrite Hin.
  rewrite filter_snoc_other by now apply includes_not_In.
  now destruct st.
Qed.

Lemma toggleCrop_twice_witness :
  includes (selectedCrops (mkState [lit "Rice"] (lit "x"))) (lit "Wheat") = false /\
  length (selectedCrops (mkState [lit "Rice"] (lit "x"))) < 5 /\
  toggleCrop (fst (toggleCrop (mkState [lit "Rice"] (lit "x")) (lit "Wheat")))
    (lit "Wheat") = (mkState [lit "Rice"] (lit "x"), None).
Proof.
  assert (H1 : includes (selectedCrops (mkState [lit "Rice"] (lit "x")))
                 (lit "Wheat") = false) by reflexivity.
  assert (H2 : length (selectedCrops (mkState [lit "Rice"] (lit "x"))) < 5)
    by (simpl; lia).
  split; [exact H1|]. split; [exact H2|].
  exact (proj2 (proj2 (toggleCrop_twice _ _ H1 H2))).
Defined.

End CropSelection.

(** ** Markers inside emphasis spans *)

Section EmphasisText.

Lemma firstSome_seq_first {A : Type} (f : nat -> option A) : forall m lo x,
  firstSome f (seq lo m) = Some x ->
  exists k, lo <= k < lo + m /\ f k = Some x /\
            forall j, lo <= j < k -> f j = None.
Proof.
  induction m as [|m IH]; intros lo x; simpl; [discriminate|].
  destruct (f lo) eqn:E.
  - intros [= <-]. exists lo. split; [lia|]. split; [assumption|].
    intros j Hj. lia.
  - intros H. apply IH in H as (k & Hk & Hf & Hj).
    exists k. split; [lia|]. split; [assumption|].
    intros j Hjk. destruct (Nat.eq_dec j lo) as [->|Hne]; [assumption|].
    apply Hj. lia.
Qed.

Lemma run_twoStars prev w :
  run [Chr isStar; Chr isStar] prev w = None -> twoStars w = false.
Proof.
  destruct w as [|a [|b w]]; try reflexivity.
  rewrite run_Chr. cbn [twoStars].
  destruct (isStar a); [|reflexivity]. rewrite run_Chr.
  destruct (isStar b); [discriminate|reflexivity].
Qed.

(** The lazy group of [boldRegex] stops at the first double marker. *)
Lemma run_boldRegex_first prev t n c :
  run Re.boldRegex prev (star :: star :: t) = Some (n, c) ->
  exists k, c = Some (firstn k t) /\ 1 <= k /\
            forall j, 1 <= j < k -> twoStars (skipn j t) = false.
Proof.
  unfold Re.boldRegex. rewrite run_Chr. change (isStar star) with true. cbv iota.
  intros H. apply shift_some in H as (n1 & H & ->). rewrite run_Chr in H.
  change (isStar star) with true in H. cbv iota in H.
  apply shift_some in H as (n2 & H & ->). rewrite run_Grp in H.
  unfold counts, Re.more in H.
  apply firstSome_seq_first in H as (k & Hk & H & Hj).
  apply capture_some in H as (c' & _ & ->).
  exists k. split; [reflexivity|]. split; [lia|].
  intros j Hjk. specialize (Hj j ltac:(lia)).
  destruct (run [Chr isStar; Chr isStar] (prevAfter (Some star) t j) (skipn j t))
    as [[n' c'']|] eqn:E; [discriminate Hj|].
  eapply run_twoStars; eauto.
Qed.

Lemma noTriple_skipn : forall s n, noTriple s -> noTriple (skipn n s).
Proof.
  induction s as [|c s IH]; intros [|n] H; simpl skipn; auto.
  apply IH, H.
Qed.

Lemma noLone_skipn : forall s n before,
  noLone before s -> exists b, noLone b (skipn n s).
Proof.
  induction s as [|c s IH]; intros [|n] before H; simpl skipn; eauto.
  destruct H as [_ H]. eapply IH; eauto.
Qed.

Lemma noLone_head before before' s :
  headIs isStar s = false -> noLone before s -> noLone before' s.
Proof.
  destruct s as [|c s]; [easy|]. simpl. intros E [_ H].
  split; [congruence|assumption].
Qed.

(** Up to the first double marker a text without lone marker has none. *)
Lemma starless_before_twoStars : forall t k before,
  headIs isStar t = false -> noLone before t ->
  (forall j, 1 <= j < k -> twoStars (skipn j t) = false) ->
  starless (firstn k t) = true.
Proof.
  induction t as [|c t IH]; intros k before Hh Hn Hj.
  - now rewrite firstn_nil.
  - destruct k as [|k]; [reflexivity|]. simpl in Hh.
    cbn [firstn starless forallb]. unfold notStar at 1. rewrite Hh. cbn [negb andb].
    destruct Hn as [_ Hn]. rewrite Hh in Hn.
    destruct (headIs isStar t) eqn:Et.
    + destruct k as [|k]; [reflexivity|].
      exfalso. specialize (Hj 1 ltac:(lia)). simpl in Hj.
      destruct t as [|d t]; [discriminate|]. simpl in Et.
      destruct Hn as [Hd _]. destruct (Hd Et) as [F|F]; [discriminate|].
      destruct t as [|e t]; [discriminate|]. simpl in F, Hj.
      rewrite Et, F in Hj. discriminate.
    + apply (IH k false eq_refl Hn). intros j Hjk.
      apply (Hj (S j)). lia.
Qed.

(** The group of a match of [boldRegex] in such a text has no marker. *)
Lemma run_boldRegex_starless prev u n c before :
  noTriple u -> noLone before u ->
  run Re.boldRegex prev u = Some (n, c) ->
  exists g, c = Some g /\ starless g = true.
Proof.
  intros Ht Hl H. pose proof H as H0. unfold Re.boldRegex in H0.
  rewrite run_Chr in H0. destruct u as [|a u]; [discriminate|].
  destruct (isStar a) eqn:Ea; [|discriminate].
  apply shift_some in H0 as (n1 & H0 & _). rewrite run_Chr in H0.
  destruct u as [|b u]; [discriminate|].
  destruct (isStar b) eqn:Eb; [|discriminate]. clear H0.
  apply isStar_eq in Ea, Eb. subst a b.
  apply run_boldRegex_first in H as (k & -> & Hk & Hj).
  exists (firstn k u). split; [reflexivity|].
  assert (Hh : headIs isStar u = false).
  { destruct Ht as [Ht _]. destruct u as [|x u]; [reflexivity|].
    simpl in *. destruct (isStar x); [lia|reflexivity]. }
  destruct Hl as [_ [_ Hl]].
  eapply starless_before_twoStars; eauto.
Qed.

(** The first replacement leaves no three [*] in a row. *)
Lemma run_tripleStars prev s :
  run Re.tripleStars prev s =
  if 3 <=? spanLen isStar s then Some (spanLen isStar s, None) else None.
Proof.
  unfold Re.tripleStars. rewrite run_Chr. destruct s as [|a s]; [reflexivity|].
  simpl spanLen. destruct (isStar a); [|reflexivity].
  rewrite run_Chr. destruct s as [|b s]; [reflexivity|].
  simpl spanLen. destruct (isStar b); [|reflexivity].
  rewrite run_Rep. destruct (Nat.leb_spec 1 (spanLen isStar s)) as [H|H].
  - rewrite counts_greedy by assumption. cbn [firstSome run shift].
    replace (3 <=? S (S (spanLen isStar s))) with true
      by (symmetry; apply Nat.leb_le; lia).
    do 2 f_equal. lia.
  - rewrite counts_nil by assumption. cbn [firstSome shift].
    replace (3 <=? S (S (spanLen isStar s))) with false
      by (symmetry; apply Nat.leb_gt; lia).
    reflexivity.
Qed.

Lemma tripleStars_step c s :
  replaceAll Re.tripleStars [star; star] (c :: s) =
  if 3 <=? spanLen isStar (c :: s)
  then star :: star ::
       replaceAll Re.tripleStars [star; star] (skipn (spanLen isStar (c :: s)) (c :: s))
  else c :: replaceAll Re.tripleStars [star; star] s.
Proof.
  rewrite replaceAll_step
    by (intros; now rewrite (run_tripleStars prev), (run_tripleStars prev')).
  rewrite run_tripleStars.
  destruct (Nat.leb_spec 3 (spanLen isStar (c :: s))) as [H|H]; [|reflexivity].
  destruct (spanLen isStar (c :: s)) as [|k]; [lia|reflexivity].
Qed.

Lemma tripleStars_spec : forall n s, length s <= n ->
  noTriple (replaceAll Re.tripleStars [star; star] s) /\
  (spanLen isStar s <= 2 ->
   spanLen isStar (replaceAll Re.tripleStars [star; star] s) = spanLen isStar s).
Proof.
  induction n as [|n IH]; intros [|c s] Hl; simpl in Hl; try lia;
    try (split; [exact I|reflexivity]).
  rewrite tripleStars_step.
  destruct (Nat.leb_spec 3 (spanLen isStar (c :: s))) as [H|H].
  - set (rest := skipn (spanLen isStar (c :: s)) (c :: s)).
    assert (Hr : length rest <= n).
    { unfold rest. rewrite length_skipn. simpl length. lia. }
    destruct (IH rest Hr) as [Hn Hs].
    assert (H0 : spanLen isStar rest = 0) by apply spanLen_skipn.
    rewrite H0 in Hs. specialize (Hs ltac:(lia)).
    split; [|lia].
    assert (E : forall x, spanLen isStar (star :: x) = S (spanLen isStar x))
      by reflexivity.
    cbn [noTriple]. rewrite !E, Hs. repeat split; auto.
  - destruct (IH s ltac:(lia)) as [Hn Hs].
    assert (Hc : spanLen isStar (c :: replaceAll Re.tripleStars [star; star] s) =
                 spanLen isStar (c :: s)).
    { simpl in *. destruct (isStar c); [|reflexivity]. rewrite Hs; lia. }
    split; [|intros _; exact Hc].
    split; [lia|exact Hn].
Qed.

(** The second replacement is [dropLone]. *)
Lemma replaceAllFrom_loneStar : forall s prev,
  replaceAllFrom Re.loneStar [] prev s 0 =
  dropLone (match prev with Some x => isStar x | None => false end) s.
Proof.
  induction s as [|c s IH]; intros prev; cbn [replaceAllFrom dropLone].
  - unfold Re.loneStar. rewrite run_NotBehind.
    destruct prev as [x|]; [destruct (isStar x)|]; reflexivity.
  - assert (E : run Re.loneStar prev (c :: s) =
                if isStar c
                   && negb (match prev with Some x => isStar x | None => false end)
                   && negb (headIs isStar s)
                then Some (1, None) else None).
    { unfold Re.loneStar. rewrite run_NotBehind.
      destruct prev as [x|]; [destruct (isStar x)|]; cbn [negb andb];
        rewrite ?andb_false_r; try reflexivity;
        rewrite run_Chr; destruct (isStar c); try reflexivity;
        cbn [run andb]; destruct s as [|d s]; try reflexivity;
        cbn [headIs]; destruct (isStar d); reflexivity. }
    rewrite E.
    destruct (isStar c && _ && _); cbn [app]; now rewrite (IH (Some c)).
Qed.

Lemma dropLone_span : forall s before,
  spanLen isStar (dropLone before s) <= spanLen isStar s.
Proof.
  induction s as [|c s IH]; intros before; simpl; [lia|].
  destruct (isStar c) eqn:Ec; cbn [andb].
  - destruct (negb before && negb (headIs isStar s)) eqn:E.
    + specialize (IH true). lia.
    + simpl. rewrite Ec. specialize (IH true). lia.
  - simpl. rewrite Ec. lia.
Qed.

Lemma dropLone_noTriple : forall s before,
  noTriple s -> noTriple (dropLone before s).
Proof.
  induction s as [|c s IH]; intros before; [easy|].
  intros [Hc Hn]. cbn [dropLone].
  destruct (isStar c && negb before && negb (headIs isStar s)); [now apply IH|].
  split; [|now apply IH].
  pose proof (dropLone_span s (isStar c)). simpl in *. destruct (isStar c); lia.
Qed.

Lemma dropLone_head : forall s,
  headIs isStar s = true -> headIs isStar (dropLone true s) = true.
Proof.
  intros [|c s] H; [discriminate|]. simpl in *. rewrite H. simpl. exact H.
Qed.

Lemma dropLone_head_other : forall s before,
  headIs isStar s = false ->
  forall b b', noLone b (dropLone before s) -> noLone b' (dropLone before s).
Proof.
  intros [|c s] before Hh b b'; [easy|]. simpl in Hh.
  cbn [dropLone]. rewrite Hh. cbn [andb noLone].
  intros [_ H]. split; [|assumption]. congruence.
Qed.

Lemma dropLone_noLone : forall s before, noLone before (dropLone before s).
Proof.
  induction s as [|c s IH]; intros before; [exact I|].
  cbn [dropLone]. destruct (isStar c) eqn:Ec; cbn [andb].
  - destruct before; cbn [negb andb].
    + split; [now left|]. rewrite Ec. apply IH.
    + destruct (headIs isStar s) eqn:Eh; cbn [negb].
      * split; [|rewrite Ec; apply IH].
        intros _. right. now apply dropLone_head.
      * apply (dropLone_head_other s true Eh true false). apply IH.
  - split; [congruence|]. rewrite Ec. apply IH.
Qed.

Lemma cleanedTextOf_stars text :
  noTriple (cleanedTextOf text) /\ noLone false (cleanedTextOf text).
Proof.
  assert (E : cleanedTextOf text =
              dropLone false (replaceAll Re.tripleStars [star; star] text))
    by apply (replaceAllFrom_loneStar _ None).
  rewrite E. split; [|apply dropLone_noLone].
  apply dropLone_noTriple. exact (proj1 (tripleStars_spec _ _ (le_n _))).
Qed.

Lemma boldLoop_emphOK : forall fuel s i parts parts' j before,
  noTriple s -> noLone before s ->
  boldLoop fuel s i parts = Some (parts', j) ->
  Forall emphOK parts -> Forall emphOK parts'.
Proof.
  induction fuel as [|fuel IH]; intros s i parts parts' j before Ht Hl; simpl;
    [discriminate|].
  destruct (exec Re.boldRegex s i) as [m|] eqn:E; [|now intros [= <- <-]].
  intros H Hok. eapply IH; eauto.
  apply Forall_app. split.
  - destruct (i <? m_index m); [|assumption].
    apply Forall_app. split; [assumption|]. now repeat constructor.
  - constructor; [|constructor].
    unfold exec in E. destruct (length s <? i); [discriminate|].
    apply search_run in E as (prev' & E). rewrite skipn_skipn in E.
    destruct (noLone_skipn s (m_index m - i + i) before Hl) as (b & Hb).
    eapply run_boldRegex_starless in E as (g & Hg & Hs);
      [|apply noTriple_skipn; eassumption|eassumption].
    unfold group1. rewrite Hg. exact Hs.
Qed.

(** X12: the text of an emphasis span never holds an emphasis marker. *)
Theorem formatInlineText_emphasis text spans :
  formatInlineText text = Some spans -> Forall emphOK spans.
Proof.
  unfold formatInlineText. fold (cleanedTextOf text).
  destruct (cleanedTextOf_stars text) as [Ht Hl].
  set (s := cleanedTextOf text) in *.
  destruct (boldLoop (S (length s)) s 0 []) as [[parts j]|] eqn:E; [|discriminate].
  eapply boldLoop_emphOK in E; eauto.
  intros [= <-].
  assert (Hp : Forall emphOK (if j <? length s
                              then parts ++ [PlainText (skipn j s)] else parts)).
  { destruct (j <? length s); [|assumption].
    apply Forall_app. split; [assumption|]. now repeat constructor. }
  destruct (if j <? length s then parts ++ [PlainText (skipn j s)] else parts);
    [now repeat constructor|assumption].
Qed.

End EmphasisText.

(** ** Further properties, continued *)

Section More.

Lemma formatInlineText_sourceOf_witness :
  formatInlineText (lit "Use ***neem*** oil * twice **daily") =
    Some [PlainText (lit "Use "); Emphasis (lit "neem");
          PlainText (lit " oil  twice **daily")] /\
  sourceOf [PlainText (lit "Use "); Emphasis (lit "neem");
            PlainText (lit " oil  twice **daily")] =
    cleanedTextOf (lit "Use ***neem*** oil * twice **daily").
Proof.
  assert (H : formatInlineText (lit "Use ***neem*** oil * twice **daily") =
              Some [PlainText (lit "Use "); Emphasis (lit "neem");
                    PlainText (lit " oil  twice **daily")])
    by (vm_compute; reflexivity).
  split; [exact H|]. exact (formatInlineText_sourceOf _ _ H).
Defined.

Lemma formatInlineText_spans_witness :
  formatInlineText (lit "**a** and **b**") =
    Some [Emphasis (lit "a"); PlainText (lit " and "); Emphasis (lit "b")] /\
  ((cleanedTextOf (lit "**a** and **b**") = [] /\
    [Emphasis (lit "a"); PlainText (lit " and "); Emphasis (lit "b")] =
      [PlainText []]) \/
   (cleanedTextOf (lit "**a** and **b**") <> [] /\
    Forall spanOK
      [Emphasis (lit "a"); PlainText (lit " and "); Emphasis (lit "b")])).
Proof.
  assert (H : formatInlineText (lit "**a** and **b**") =
              Some [Emphasis (lit "a"); PlainText (lit " and "); Emphasis (lit "b")])
    by (vm_compute; reflexivity).
  split; [exact H|]. exact (formatInlineText_spans _ _ H).
Defined.

Lemma formatInlineText_emphasis_witness :
  formatInlineText (lit "**a*b** ****c**") =
    Some [Emphasis (lit "ab"); PlainText (lit " "); Emphasis (lit "c")] /\
  Forall emphOK [Emphasis (lit "ab"); PlainText (lit " "); Emphasis (lit "c")].
Proof.
  assert (H : formatInlineText (lit "**a*b** ****c**") =
              Some [Emphasis (lit "ab"); PlainText (lit " "); Emphasis (lit "c")])
    by (vm_compute; reflexivity).
  split; [exact H|]. exact (formatInlineText_emphasis _ _ H).
Defined.

Lemma renderLines_split_witness :
  isListLine (lit "## Next") = false /\
  renderLines ([lit "- a"; lit "1. b"] ++ lit "## Next" :: [lit "text"; lit "- c"]) =
    (a <- renderLines [lit "- a"; lit "1. b"];;
     m <- lineNodes (lit "## Next");;
     b <- renderLines [lit "text"; lit "- c"];;
     Some (a ++ m ++ b)).
Proof.
  split; [reflexivity|]. apply renderLines_split. reflexivity.
Defined.


Lemma noRun3_of_skipn s :
  (forall n, spanLen isSpace (skipn n s) <= 2) -> noRun3 s.
Proof.
  induction s as [|c s IH]; intros H; [exact I|].
  split; [exact (H 0)|]. apply IH. intros n. exact (H (S n)).
Qed.

(** X14: a text without emphasis marker and without a run of three
    whitespace units passes the cleaning unchanged. *)
Theorem cleanContent_markerless s :
  starless s = true -> (forall n, spanLen isSpace (skipn n s) <= 2) ->
  cleanContent s = s.
Proof.
  intros Hs Hn. rewrite (cleanContent_starless _ Hs).
  now apply collapse_noRun3_id, noRun3_of_skipn.
Qed.

Lemma cleanContent_markerless_witness :
  starless (unlines [lit "# Soil: pH 6.5"; lit ""; lit "Add lime."]) = true /\
  (forall n, spanLen isSpace
               (skipn n (unlines [lit "# Soil: pH 6.5"; lit ""; lit "Add lime."])) <= 2) /\
  cleanContent (unlines [lit "# Soil: pH 6.5"; lit ""; lit "Add lime."]) =
    unlines [lit "# Soil: pH 6.5"; lit ""; lit "Add lime."].
Proof.
  assert (H1 : starless (unlines [lit "# Soil: pH 6.5"; lit ""; lit "Add lime."]) = true)
    by reflexivity.
  assert (H2 : forall n,
             spanLen isSpace
               (skipn n (unlines [lit "# Soil: pH 6.5"; lit ""; lit "Add lime."])) <= 2).
  { intros n. apply noRun3_skipn. vm_compute. repeat split; lia. }
  split; [exact H1|]. split; [exact H2|].
  exact (cleanContent_markerless _ H1 H2).
Defined.

End More.

Section CustomCrop.

Import MarketPrices.

(** X15: when adding the typed crop changes the selection, what is added at
    its end is the typed text trimmed, which is not empty, has no whitespace
    at its ends and was not selected; the field is cleared and no toast is
    raised. *)
Theorem addCustomCrop_adds_trimmed st :
  selectedCrops (fst (addCustomCrop st)) <> selectedCrops st ->
  selectedCrops (fst (addCustomCrop st)) =
    selectedCrops st ++ [trim (customCrop st)] /\
  trim (customCrop st) <> [] /\
  trim (trim (customCrop st)) = trim (customCrop st) /\
  ~ In (trim (customCrop st)) (selectedCrops st) /\
  length (selectedCrops st) < 5 /\
  customCrop (fst (addCustomCrop st)) = [] /\
  snd (addCustomCrop st) = None.
Proof.
  unfold addCustomCrop.
  destruct (isEmpty (trim (customCrop st))) eqn:Ee; cbn [negb andb fst];
    [congruence|].
  destruct (includes (selectedCrops st) (trim (customCrop st))) eqn:Ei;
    cbn [negb fst]; [congruence|].
  destruct (Nat.ltb_spec (length (selectedCrops st)) 5) as [Hl|Hl];
    cbn [fst snd selectedCrops customCrop]; [|congruence].
  intros _. repeat split; try assumption.
  - intros E. rewrite E in Ee. discriminate.
  - apply trim_trim.
  - now apply includes_not_In.
Qed.

Lemma addCustomCrop_adds_trimmed_witness :
  selectedCrops (fst (addCustomCrop (mkState [lit "Rice"] (lit "  Millet ")))) <>
    selectedCrops (mkState [lit "Rice"] (lit "  Millet ")) /\
  selectedCrops (fst (addCustomCrop (mkState [lit "Rice"] (lit "  Millet ")))) =
    selectedCrops (mkState [lit "Rice"] (lit "  Millet ")) ++
    [trim (customCrop (mkState [lit "Rice"] (lit "  Millet ")))].
Proof.
  assert (H : selectedCrops
                (fst (addCustomCrop (mkState [lit "Rice"] (lit "  Millet ")))) <>
              selectedCrops (mkState [lit "Rice"] (lit "  Millet ")))
    by (vm_compute; discriminate).
  split; [exact H|]. exact (proj1 (addCustomCrop_adds_trimmed _ H)).
Defined.

End CustomCrop.

(** ** Emphasis in the result *)

Section EmphasisShown.

Lemma emphasisOK_of sp : spanOK sp -> emphOK sp -> emphasisOK sp.
Proof. destruct sp as [v|v]; simpl; [auto|]. intros [H1 H2] H3. auto. Qed.

Lemma Forall_emphasisOK spans :
  Forall spanOK spans -> Forall emphOK spans -> Forall emphasisOK spans.
Proof.
  induction spans as [|sp spans IH]; intros H1 H2; constructor;
    inversion H1; inversion H2; subst; auto using emphasisOK_of.
Qed.

Lemma formatInlineText_emphasisOK text spans :
  formatInlineText text = Some spans -> Forall emphasisOK spans.
Proof.
  unfold formatInlineText. fold (cleanedTextOf text).
  destruct (cleanedTextOf_stars text) as [Ht Hl].
  set (s := cleanedTextOf text) in *.
  destruct (boldLoop (S (length s)) s 0 []) as [[parts j]|] eqn:E; [|discriminate].
  pose proof (boldLoop_emphOK _ _ _ _ _ _ _ Ht Hl E (Forall_nil _)) as H2.
  apply boldLoop_spec in E; [|lia|reflexivity|constructor].
  destruct E as (_ & _ & H1 & _). intros [= <-].
  pose proof (Forall_emphasisOK _ H1 H2) as H.
  assert (Hp : Forall emphasisOK (if j <? length s
                                  then parts ++ [PlainText (skipn j s)] else parts)).
  { destruct (j <? length s); [|assumption].
    apply Forall_app. split; [assumption|]. now repeat constructor. }
  destruct (if j <? length s then parts ++ [PlainText (skipn j s)] else parts);
    [now repeat constructor|assumption].
Qed.

Lemma mapM_Forall {A B : Type} (f : A -> option B) (P : B -> Prop) :
  (forall a b, f a = Some b -> P b) ->
  forall l bs, mapM f l = Some bs -> Forall P bs.
Proof.
  intros Hf. induction l as [|a l IH]; intros bs; simpl.
  - intros [= <-]. constructor.
  - destruct (f a) as [b|] eqn:E; [|discriminate]. simpl.
    destruct (mapM f l) as [bs'|]; [|discriminate]. simpl.
    intros [= <-]. constructor; eauto.
Qed.

Lemma flushList_spansOK st st' :
  Forall nodeSpansOK (elements st) -> flushList st = Some st' ->
  Forall nodeSpansOK (elements st').
Proof.
  intros H. unfold flushList. destruct (listItems st) as [|x l] eqn:E.
  - now intros [= <-].
  - destruct (mapM formatInlineText (x :: l)) as [items|] eqn:Em; cbn [bind];
      [|discriminate].
    intros [= <-]. cbn [elements]. apply Forall_app. split; [assumption|].
    constructor; [|constructor].
    apply (mapM_Forall _ (Forall emphasisOK) formatInlineText_emphasisOK) in Em.
    unfold nodeSpansOK. now destruct (listType st).
Qed.

Lemma openList_spansOK t st st' :
  Forall nodeSpansOK (elements st) -> openList t st = Some st' ->
  Forall nodeSpansOK (elements st').
Proof.
  intros H. unfold openList. destruct (negb (isInList st)); [|now intros [= <-]].
  destruct (flushList st) as [f|] eqn:E; cbn [bind]; [|discriminate].
  intros [= <-]. cbn [elements]. eapply flushList_spansOK; eauto.
Qed.

Lemma lineNodes_spansOK line ns :
  lineNodes line = Some ns -> Forall nodeSpansOK ns.
Proof.
  unfold lineNodes. cbv zeta.
  destruct (classify (trim line)); try (intros [= <-]; now repeat constructor).
  - destruct (formatInlineText _) eqn:E; cbn [bind]; [|discriminate].
    intros [= <-]. apply formatInlineText_emphasisOK in E. now repeat constructor.
  - destruct (formatInlineText _) eqn:E; cbn [bind]; [|discriminate].
    intros [= <-]. apply formatInlineText_emphasisOK in E. now repeat constructor.
  - destruct (isEmpty _); [intros [= <-]; constructor|].
    destruct (formatInlineText _) eqn:E; cbn [bind]; [|discriminate].
    intros [= <-]. apply formatInlineText_emphasisOK in E. now repeat constructor.
Qed.

Lemma processLine_spansOK st line st' :
  Forall nodeSpansOK (elements st) -> processLine st line = Some st' ->
  Forall nodeSpansOK (elements st').
Proof.
  intros H. destruct (isListLine line) eqn:L.
  - rewrite (processLine_list _ _ L).
    destruct (openList _ st) as [o|] eqn:E; cbn [bind]; [|discriminate].
    intros [= <-]. cbn [addItem elements]. eapply openList_spansOK; eauto.
  - rewrite (processLine_other _ _ L).
    destruct (flushList st) as [f|] eqn:E; cbn [bind]; [|discriminate].
    destruct (lineNodes line) as [ns|] eqn:En; cbn [bind]; [|discriminate].
    intros [= <-]. cbn [pushAll elements]. apply Forall_app. split.
    + eapply flushList_spansOK; eauto.
    + eapply lineNodes_spansOK; eauto.
Qed.

Lemma forEach_spansOK : forall lines st st',
  Forall nodeSpansOK (elements st) -> forEach st lines = Some st' ->
  Forall nodeSpansOK (elements st').
Proof.
  induction lines as [|l lines IH]; intros st st' H; simpl.
  - now intros [= <-].
  - destruct (processLine st l) as [s|] eqn:E; cbn [bind]; [|discriminate].
    apply IH. eapply processLine_spansOK; eauto.
Qed.

(** X16: whatever the content, every emphasis span of the result, in a
    paragraph, a heading or a list item, holds some text, no emphasis marker
    and no line break. *)
Theorem format_emphasis content r :
  format content = Some r -> Forall nodeSpansOK (nodes r).
Proof.
  unfold format. destruct (isEmpty content); [intros [= <-]; constructor|].
  destruct (forEach initial _) as [st|] eqn:E; cbn [bind]; [|discriminate].
  destruct (flushList st) as [f|] eqn:Ef; cbn [bind]; [|discriminate].
  intros [= <-]. cbn [nodes].
  eapply flushList_spansOK; [|exact Ef].
  eapply forEach_spansOK; [|exact E]. constructor.
Qed.

Lemma format_emphasis_witness :
  format (unlines [lit "## **Pests**"; lit "- spray **neem** oil";
                   lit "Check *daily*, **not weekly**."]) =
    Some (Div [Heading 2 [Emphasis (lit "Pests")];
               BulletList [[PlainText (lit "spray "); Emphasis (lit "neem");
                            PlainText (lit " oil")]];
               Paragraph [PlainText (lit "Check daily, ");
                          Emphasis (lit "not weekly"); PlainText (lit ".")]]) /\
  Forall nodeSpansOK
    (nodes (Div [Heading 2 [Emphasis (lit "Pests")];
                 BulletList [[PlainText (lit "spray "); Emphasis (lit "neem");
                              PlainText (lit " oil")]];
                 Paragraph [PlainText (lit "Check daily, ");
                            Emphasis (lit "not weekly"); PlainText (lit ".")]])).
Proof.
  assert (H : format (unlines [lit "## **Pests**"; lit "- spray **neem** oil";
                               lit "Check *daily*, **not weekly**."]) =
              Some (Div [Heading 2 [Emphasis (lit "Pests")];
                         BulletList [[PlainText (lit "spray "); Emphasis (lit "neem");
                                      PlainText (lit " oil")]];
                         Paragraph [PlainText (lit "Check daily, ");
                                    Emphasis (lit "not weekly");
                                    PlainText (lit ".")]]))
    by (vm_compute; reflexivity).
  split; [exact H|]. exact (format_emphasis _ _ H).
Defined.

End EmphasisShown.
